(** * FinancelyAI: the client-side authentication service

    A shallow embedding of [services/authService] (the password-hash
    sign-up / login / logout flow over [localStorage]) and of the start-up
    check of [App], together with the platform operations they call:
    [TextEncoder.encode], [crypto.subtle.digest('SHA-256', _)],
    [JSON.stringify] and [JSON.parse].

    Every call of the service is taken as one step: the model says what
    a call returns and what it leaves in the storage when no other call
    runs in between.

    Layout: the definitions come first (modules [JS], [Sha256], [Json],
    [Effects], [Auth], [App], [Reading]), the lemmas and theorems follow. *)

From Stdlib Require Import NArith List Ascii String Lia.
From stdpp Require Import gmap list.

Set Warnings "-register-all".
Open Scope N_scope.

(* ===================================================================== *)
(** ** JavaScript strings *)
(* ===================================================================== *)

Module JS.

(** A JavaScript string is a finite sequence of UTF-16 code units.  A code
    unit is modelled as an [N]; the strings of the language are the lists
    whose elements are all below [2^16].  Every function below is total on
    all lists, so no statement needs a range side condition. *)
Definition jsstring : Type := list N.

(** The string written as an ASCII literal in the source. *)
Definition lit (s : string) : jsstring :=
  List.map N_of_ascii (list_ascii_of_string s).

(** [a === b] on two strings. *)
Fixpoint str_eqb (a b : jsstring) : bool :=
  match a, b with
  | [], [] => true
  | x :: a', y :: b' => (x =? y) && str_eqb a' b'
  | _, _ => false
  end.

(** Truthiness of [string | null], as tested by [if (s)], [!s] and [!!s]:
    [null] and the empty string are falsy, every other string is truthy. *)
Definition truthy (v : option jsstring) : bool :=
  match v with
  | None => false
  | Some [] => false
  | Some (_ :: _) => true
  end.

Definition is_lead (c : N) : bool := (0xD800 <=? c) && (c <=? 0xDBFF).
Definition is_trail (c : N) : bool := (0xDC00 <=? c) && (c <=? 0xDFFF).
Definition is_surrogate (c : N) : bool := (0xD800 <=? c) && (c <=? 0xDFFF).

(** The scalar values [TextEncoder.encode] sees: surrogate pairs are
    combined, a lone surrogate becomes U+FFFD. *)
Fixpoint scalar_values (s : jsstring) : list N :=
  match s with
  | [] => []
  | c :: r =>
      if is_lead c then
        match r with
        | d :: r' =>
            if is_trail d
            then (0x10000 + (c - 0xD800) * 0x400 + (d - 0xDC00)) :: scalar_values r'
            else 0xFFFD :: scalar_values r
        | [] => [0xFFFD]
        end
      else if is_trail c then 0xFFFD :: scalar_values r
      else c :: scalar_values r
  end.

(** UTF-8 bytes of one scalar value. *)
Definition utf8_of_scalar (cp : N) : list N :=
  if cp <? 0x80 then [cp]
  else if cp <? 0x800 then [0xC0 + cp / 0x40; 0x80 + cp mod 0x40]
  else if cp <? 0x10000 then
    [0xE0 + cp / 0x1000; 0x80 + (cp / 0x40) mod 0x40; 0x80 + cp mod 0x40]
  else
    [0xF0 + (cp / 0x40000) mod 8; 0x80 + (cp / 0x1000) mod 0x40;
     0x80 + (cp / 0x40) mod 0x40; 0x80 + cp mod 0x40].

(** [new TextEncoder().encode(s)]: the bytes of a [Uint8Array]. *)
Definition encode (s : jsstring) : list N :=
  flat_map utf8_of_scalar (scalar_values s).

(** One hexadecimal digit, lowercase, as a code unit. *)
Definition hex_digit (d : N) : N :=
  if d <? 10 then 48 + d else 87 + d.

Fixpoint hex_digits (fuel : nat) (n : N) (acc : jsstring) : jsstring :=
  match fuel with
  | O => acc
  | S fuel' =>
      let acc' := hex_digit (n mod 16) :: acc in
      if n / 16 =? 0 then acc' else hex_digits fuel' (n / 16) acc'
  end.

(** [n.toString(16)] for a non-negative integer [n]. *)
Definition toString16 (n : N) : jsstring :=
  hex_digits (S (N.to_nat (N.log2 n))) n [].

(** [s.padStart(len, fill)] for a one-unit filler. *)
Definition padStart (len : nat) (fill : N) (s : jsstring) : jsstring :=
  List.repeat fill (len - length s)%nat ++ s.

End JS.

(* ===================================================================== *)
(** ** SHA-256 (FIPS 180-4), the digest behind [crypto.subtle.digest] *)
(* ===================================================================== *)

Module Sha256.

Definition wrap (x : N) : N := x mod 2 ^ 32.
Definition add32 (x y : N) : N := wrap (x + y).
Definition rotr (n x : N) : N :=
  N.lor (N.shiftr x n) (wrap (N.shiftl x (32 - n))).
Definition not32 (x : N) : N := N.lxor x 0xFFFFFFFF.

Definition Ch (x y z : N) : N := N.lxor (N.land x y) (N.land (not32 x) z).
Definition Maj (x y z : N) : N :=
  N.lxor (N.lxor (N.land x y) (N.land x z)) (N.land y z).
Definition bsig0 (x : N) : N := N.lxor (N.lxor (rotr 2 x) (rotr 13 x)) (rotr 22 x).
Definition bsig1 (x : N) : N := N.lxor (N.lxor (rotr 6 x) (rotr 11 x)) (rotr 25 x).
Definition ssig0 (x : N) : N := N.lxor (N.lxor (rotr 7 x) (rotr 18 x)) (N.shiftr x 3).
Definition ssig1 (x : N) : N := N.lxor (N.lxor (rotr 17 x) (rotr 19 x)) (N.shiftr x 10).

(** Round constants: fractional parts of the cube roots of the first 64
    primes. *)
Definition round_constants : list N :=
  [ 0x428A2F98; 0x71374491; 0xB5C0FBCF; 0xE9B5DBA5;
    0x3956C25B; 0x59F111F1; 0x923F82A4; 0xAB1C5ED5;
    0xD807AA98; 0x12835B01; 0x243185BE; 0x550C7DC3;
    0x72BE5D74; 0x80DEB1FE; 0x9BDC06A7; 0xC19BF174;
    0xE49B69C1; 0xEFBE4786; 0x0FC19DC6; 0x240CA1CC;
    0x2DE92C6F; 0x4A7484AA; 0x5CB0A9DC; 0x76F988DA;
    0x983E5152; 0xA831C66D; 0xB00327C8; 0xBF597FC7;
    0xC6E00BF3; 0xD5A79147; 0x06CA6351; 0x14292967;
    0x27B70A85; 0x2E1B2138; 0x4D2C6DFC; 0x53380D13;
    0x650A7354; 0x766A0ABB; 0x81C2C92E; 0x92722C85;
    0xA2BFE8A1; 0xA81A664B; 0xC24B8B70; 0xC76C51A3;
    0xD192E819; 0xD6990624; 0xF40E3585; 0x106AA070;
    0x19A4C116; 0x1E376C08; 0x2748774C; 0x34B0BCB5;
    0x391C0CB3; 0x4ED8AA4A; 0x5B9CCA4F; 0x682E6FF3;
    0x748F82EE; 0x78A5636F; 0x84C87814; 0x8CC70208;
    0x90BEFFFA; 0xA4506CEB; 0xBEF9A3F7; 0xC67178F2 ].

(** The eight working words [a .. h]. *)
Definition words8 : Type := (N * N * N * N * N * N * N * N)%type.

Definition initial_hash : words8 :=
  (0x6A09E667, 0xBB67AE85, 0x3C6EF372, 0xA54FF53A,
   0x510E527F, 0x9B05688C, 0x1F83D9AB, 0x5BE0CD19).

(** Big-endian bytes of a 32-bit word and of a 64-bit length. *)
Definition be32 (x : N) : list N :=
  [ (x / 2 ^ 24) mod 256; (x / 2 ^ 16) mod 256; (x / 2 ^ 8) mod 256; x mod 256 ].
Definition be64 (x : N) : list N := be32 (x / 2 ^ 32) ++ be32 x.

(** Padding: a 1 bit, zero bits up to 56 mod 64 bytes, the bit length. *)
Definition pad (msg : list N) : list N :=
  let len := N.of_nat (length msg) in
  msg ++ [0x80]
      ++ List.repeat 0 (N.to_nat ((119 - len mod 64) mod 64))
      ++ be64 (8 * len).

(** The sixteen big-endian words of the first 64 bytes of [l]. *)
Fixpoint words_of (n : nat) (l : list N) : list N :=
  match n, l with
  | S n', b0 :: b1 :: b2 :: b3 :: r =>
      (b0 mod 256 * 2 ^ 24 + b1 mod 256 * 2 ^ 16 + b2 mod 256 * 2 ^ 8 + b3 mod 256)
        :: words_of n' r
  | _, _ => []
  end.

(** Message schedule, kept most recent word first: [W_t] is computed from
    [W_(t-2)], [W_(t-7)], [W_(t-15)] and [W_(t-16)]. *)
Fixpoint extend (n : nat) (rev_w : list N) : list N :=
  match n with
  | O => rev_w
  | S n' =>
      let wt := add32 (add32 (ssig1 (nth 1 rev_w 0)) (nth 6 rev_w 0))
                      (add32 (ssig0 (nth 14 rev_w 0)) (nth 15 rev_w 0)) in
      extend n' (wt :: rev_w)
  end.

Definition schedule (block : list N) : list N :=
  rev (extend 48 (rev (words_of 16 block))).

Definition round (st : words8) (kw : N * N) : words8 :=
  let '(a, b, c, d, e, f, g, h) := st in
  let '(k, w) := kw in
  let t1 := add32 (add32 (add32 (add32 h (bsig1 e)) (Ch e f g)) k) w in
  let t2 := add32 (bsig0 a) (Maj a b c) in
  (add32 t1 t2, a, b, c, add32 d t1, e, f, g).

Definition compress (hv : words8) (block : list N) : words8 :=
  let '(a, b, c, d, e, f, g, h) :=
    fold_left round (combine round_constants (schedule block)) hv in
  let '(a0, b0, c0, d0, e0, f0, g0, h0) := hv in
  (add32 a0 a, add32 b0 b, add32 c0 c, add32 d0 d,
   add32 e0 e, add32 f0 f, add32 g0 g, add32 h0 h).

Fixpoint process (nblocks : nat) (hv : words8) (l : list N) : words8 :=
  match nblocks with
  | O => hv
  | S n' => process n' (compress hv (firstn 64 l)) (skipn 64 l)
  end.

Definition bytes_of_words8 (hv : words8) : list N :=
  let '(a, b, c, d, e, f, g, h) := hv in
  be32 a ++ be32 b ++ be32 c ++ be32 d ++ be32 e ++ be32 f ++ be32 g ++ be32 h.

(** The 32-byte digest of a byte sequence. *)
Definition digest (msg : list N) : list N :=
  let padded := pad msg in
  bytes_of_words8 (process (length padded / 64)%nat initial_hash padded).

End Sha256.

(* ===================================================================== *)
(** ** JSON values, [JSON.stringify] and [JSON.parse] *)
(* ===================================================================== *)

Module Json.
Import JS.

(** What [JSON.parse] can return, plus [undefined], the value of a missing
    property.  A number is kept as the lexeme it was read from. *)
Inductive value : Type :=
| VUndefined
| VNull
| VBool (b : bool)
| VNumber (lexeme : jsstring)
| VString (s : jsstring)
| VArray (elems : list value)
| VObject (props : list (jsstring * value)).

(** *** Serialisation *)

(** [UnicodeEscape]: a backslash, [u] and four lowercase hex digits. *)
Definition unicode_escape (c : N) : jsstring :=
  [92; 117; hex_digit ((c / 4096) mod 16); hex_digit ((c / 256) mod 16);
   hex_digit ((c / 16) mod 16); hex_digit (c mod 16)].

(** One code unit that is not a surrogate, as [QuoteJSONString] writes it. *)
Definition escape_unit (c : N) : jsstring :=
  if c =? 8 then [92; 98]
  else if c =? 9 then [92; 116]
  else if c =? 10 then [92; 110]
  else if c =? 12 then [92; 102]
  else if c =? 13 then [92; 114]
  else if c =? 34 then [92; 34]
  else if c =? 92 then [92; 92]
  else if c <? 32 then unicode_escape c
  else [c].

(** The characters between the quotes: a surrogate pair is copied, a lone
    surrogate is escaped. *)
Fixpoint quote_chars (s : jsstring) : jsstring :=
  match s with
  | [] => []
  | c :: r =>
      if is_lead c then
        match r with
        | d :: r' =>
            if is_trail d then c :: d :: quote_chars r'
            else unicode_escape c ++ quote_chars r
        | [] => unicode_escape c
        end
      else if is_trail c then unicode_escape c ++ quote_chars r
      else escape_unit c ++ quote_chars r
  end.

(** [QuoteJSONString]. *)
Definition quote (s : jsstring) : jsstring := 34 :: quote_chars s ++ [34].

Fixpoint stringify_members (props : list (jsstring * jsstring)) : jsstring :=
  match props with
  | [] => []
  | [(k, v)] => quote k ++ 58 :: quote v
  | (k, v) :: rest => quote k ++ 58 :: quote v ++ 44 :: stringify_members rest
  end.

(** [JSON.stringify] of an object all of whose properties hold strings:
    the members in property order, separated by commas, between braces. *)
Definition stringify_object (props : list (jsstring * jsstring)) : jsstring :=
  123 :: stringify_members props ++ [125].

(** *** Parsing *)

Definition is_ws (c : N) : bool :=
  (c =? 32) || (c =? 9) || (c =? 10) || (c =? 13).

Fixpoint skip_ws (s : jsstring) : jsstring :=
  match s with
  | c :: r => if is_ws c then skip_ws r else s
  | [] => []
  end.

Definition is_digit (c : N) : bool := (48 <=? c) && (c <=? 57).

Definition hex_value (c : N) : option N :=
  if is_digit c then Some (c - 48)
  else if (97 <=? c) && (c <=? 102) then Some (c - 87)
  else if (65 <=? c) && (c <=? 70) then Some (c - 55)
  else None.

Definition hex4_value (a b c d : N) : option N :=
  match hex_value a, hex_value b, hex_value c, hex_value d with
  | Some x3, Some x2, Some x1, Some x0 =>
      Some (((x3 * 16 + x2) * 16 + x1) * 16 + x0)
  | _, _, _, _ => None
  end.

(** The character after a backslash, other than [u]. *)
Definition simple_escape (c : N) : option N :=
  if c =? 34 then Some 34
  else if c =? 92 then Some 92
  else if c =? 47 then Some 47
  else if c =? 98 then Some 8
  else if c =? 102 then Some 12
  else if c =? 110 then Some 10
  else if c =? 114 then Some 13
  else if c =? 116 then Some 9
  else None.

Definition cons_fst {A : Type} (c : N) (r : option (jsstring * A)) :
  option (jsstring * A) :=
  match r with
  | Some (s, rest) => Some (c :: s, rest)
  | None => None
  end.

(** A string body: the input just after the opening quote, up to and
    including the closing quote. *)
Fixpoint parse_chars (s : jsstring) : option (jsstring * jsstring) :=
  match s with
  | [] => None
  | c :: r =>
      if c =? 34 then Some ([], r)
      else if c =? 92 then
        match r with
        | [] => None
        | e :: r1 =>
            if e =? 117 then
              match r1 with
              | h3 :: h2 :: h1 :: h0 :: r2 =>
                  match hex4_value h3 h2 h1 h0 with
                  | Some u => cons_fst u (parse_chars r2)
                  | None => None
                  end
              | _ => None
              end
            else
              match simple_escape e with
              | Some u => cons_fst u (parse_chars r1)
              | None => None
              end
        end
      else if c <? 32 then None
      else cons_fst c (parse_chars r)
  end.

(** The longest prefix of decimal digits, and what follows it. *)
Fixpoint span_digits (s : jsstring) : jsstring * jsstring :=
  match s with
  | c :: r =>
      if is_digit c then let '(ds, rest) := span_digits r in (c :: ds, rest)
      else ([], s)
  | [] => ([], [])
  end.

Definition parse_int (s : jsstring) : option (jsstring * jsstring) :=
  match s with
  | c :: r =>
      if c =? 48 then Some ([48], r)
      else if is_digit c then
        let '(ds, rest) := span_digits r in Some (c :: ds, rest)
      else None
  | [] => None
  end.

Definition parse_frac (s : jsstring) : option (jsstring * jsstring) :=
  match s with
  | c :: r =>
      if c =? 46 then
        match span_digits r with
        | ([], _) => None
        | (ds, rest) => Some (c :: ds, rest)
        end
      else Some ([], s)
  | [] => Some ([], s)
  end.

Definition parse_exp (s : jsstring) : option (jsstring * jsstring) :=
  match s with
  | c :: r =>
      if (c =? 101) || (c =? 69) then
        let '(sign, r1) :=
          match r with
          | d :: r' => if (d =? 43) || (d =? 45) then ([d], r') else ([], r)
          | [] => ([], r)
          end in
        match span_digits r1 with
        | ([], _) => None
        | (ds, rest) => Some (c :: sign ++ ds, rest)
        end
      else Some ([], s)
  | [] => Some ([], s)
  end.

(** A number: optional minus, integer part, optional fraction, optional
    exponent. *)
Definition parse_number (s : jsstring) : option (jsstring * jsstring) :=
  let '(minus, s0) :=
    match s with
    | c :: r => if c =? 45 then ([c], r) else ([], s)
    | [] => ([], s)
    end in
  match parse_int s0 with
  | None => None
  | Some (i, s1) =>
      match parse_frac s1 with
      | None => None
      | Some (f, s2) =>
          match parse_exp s2 with
          | None => None
          | Some (e, s3) => Some (minus ++ i ++ f ++ e, s3)
          end
      end
  end.

(** [strip_prefix p s]: what follows [p] in [s], when [s] starts with [p]. *)
Fixpoint strip_prefix (p s : jsstring) : option jsstring :=
  match p, s with
  | [], _ => Some s
  | x :: p', y :: s' => if x =? y then strip_prefix p' s' else None
  | _ :: _, [] => None
  end.

(** A value, the elements of an array after the first bracket, the members
    of an object after the first brace.  The input of each starts at a
    token (white space already skipped).  Every call consumes input before
    it recurses twice, so fuel [2 * length + 2] is never exhausted. *)
Fixpoint parse_value (fuel : nat) (s : jsstring) : option (value * jsstring) :=
  match fuel with
  | O => None
  | S fuel' =>
      match s with
      | [] => None
      | c :: r =>
          if c =? 123 then
            match skip_ws r with
            | c' :: r' =>
                if c' =? 125 then Some (VObject [], r')
                else parse_members fuel' (c' :: r') []
            | [] => None
            end
          else if c =? 91 then
            match skip_ws r with
            | c' :: r' =>
                if c' =? 93 then Some (VArray [], r')
                else parse_elements fuel' (c' :: r') []
            | [] => None
            end
          else if c =? 34 then
            match parse_chars r with
            | Some (str, r') => Some (VString str, r')
            | None => None
            end
          else if c =? 116 then
            option_map (pair (VBool true)) (strip_prefix (lit "rue") r)
          else if c =? 102 then
            option_map (pair (VBool false)) (strip_prefix (lit "alse") r)
          else if c =? 110 then
            option_map (pair VNull) (strip_prefix (lit "ull") r)
          else
            match parse_number s with
            | Some (lexeme, r') => Some (VNumber lexeme, r')
            | None => None
            end
      end
  end
with parse_elements (fuel : nat) (s : jsstring) (acc : list value) :
  option (value * jsstring) :=
  match fuel with
  | O => None
  | S fuel' =>
      match parse_value fuel' s with
      | None => None
      | Some (v, r) =>
          match skip_ws r with
          | c :: r' =>
              if c =? 44 then parse_elements fuel' (skip_ws r') (v :: acc)
              else if c =? 93 then Some (VArray (rev (v :: acc)), r')
              else None
          | [] => None
          end
      end
  end
with parse_members (fuel : nat) (s : jsstring) (acc : list (jsstring * value)) :
  option (value * jsstring) :=
  match fuel with
  | O => None
  | S fuel' =>
      match s with
      | q :: r =>
          if q =? 34 then
            match parse_chars r with
            | None => None
            | Some (k, r1) =>
                match skip_ws r1 with
                | colon :: r2 =>
                    if colon =? 58 then
                      match parse_value fuel' (skip_ws r2) with
                      | None => None
                      | Some (v, r3) =>
                          match skip_ws r3 with
                          | c :: r4 =>
                              if c =? 44
                              then parse_members fuel' (skip_ws r4) ((k, v) :: acc)
                              else if c =? 125
                              then Some (VObject (rev ((k, v) :: acc)), r4)
                              else None
                          | [] => None
                          end
                      end
                    else None
                | [] => None
                end
            end
          else None
      | [] => None
      end
  end.

(** [JSON.parse(text)]: [None] stands for the [SyntaxError] it throws. *)
Definition parse (text : jsstring) : option value :=
  match parse_value (2 * length text + 2) (skip_ws text) with
  | Some (v, r) =>
      match skip_ws r with
      | [] => Some v
      | _ :: _ => None
      end
  | None => None
  end.

(** *** Reading a parsed value *)

(** Own property [k] of a parsed object; of two members with one name, the
    later one wins. *)
Fixpoint own_property (k : jsstring) (props : list (jsstring * value)) :
  option value :=
  match props with
  | [] => None
  | (k', v) :: rest =>
      match own_property k rest with
      | Some later => Some later
      | None => if str_eqb k k' then Some v else None
      end
  end.

Section Coercion.

(** [Number::toString] of the double a number lexeme denotes: floating
    point, left as a parameter of the model. *)
Variable number_to_string : jsstring -> jsstring.

(** [ToString], as applied to the right operand of [string + v]. *)
Fixpoint to_string (v : value) : jsstring :=
  match v with
  | VUndefined => lit "undefined"
  | VNull => lit "null"
  | VBool true => lit "true"
  | VBool false => lit "false"
  | VNumber lexeme => number_to_string lexeme
  | VString s => s
  | VArray elems =>
      (fix join (l : list value) : jsstring :=
         match l with
         | [] => []
         | x :: rest =>
             let sx := match x with
                       | VUndefined | VNull => []
                       | _ => to_string x
                       end in
             match rest with
             | [] => sx
             | _ :: _ => sx ++ 44 :: join rest
             end
         end) elems
  | VObject _ => lit "[object Object]"
  end.

End Coercion.

(** [s === v] for a string [s] and any value [v]. *)
Definition strict_equal (s : jsstring) (v : value) : bool :=
  match v with
  | VString s' => str_eqb s s'
  | _ => false
  end.

End Json.

(* ===================================================================== *)
(** ** Calls that read and write [localStorage] *)
(* ===================================================================== *)

Module Effects.
Import JS.

(** [localStorage]: a finite map from keys to string values. *)
Abbreviation Storage := (gmap jsstring jsstring).

Inductive exn : Type := SyntaxError | TypeError.

(** How a call ends: it returns (an [async] function resolves its promise)
    or it throws (the promise is rejected). *)
Inductive outcome (A : Type) : Type :=
| Returns (a : A)
| Throws (e : exn).
Arguments Returns {A} a.
Arguments Throws {A} e.

(** A computation over the storage.  What was written before a throw
    stays written.  Storage calls themselves are taken not to fail. *)
Definition M (A : Type) : Type := Storage -> outcome A * Storage.

Definition ret {A : Type} (a : A) : M A := fun ls => (Returns a, ls).
Definition throw {A : Type} (e : exn) : M A := fun ls => (Throws e, ls).
Definition bind {A B : Type} (m : M A) (k : A -> M B) : M B :=
  fun ls =>
    match m ls with
    | (Returns a, ls') => k a ls'
    | (Throws e, ls') => (Throws e, ls')
    end.

Definition getItem (key : jsstring) : M (option jsstring) :=
  fun ls => (Returns (ls !! key), ls).
Definition setItem (key value : jsstring) : M unit :=
  fun ls => (Returns tt, <[key := value]> ls).
Definition removeItem (key : jsstring) : M unit :=
  fun ls => (Returns tt, delete key ls).

End Effects.

Declare Scope js_scope.
Delimit Scope js_scope with js.
Notation "x <- m ;; k" := (Effects.bind m (fun x => k))
  (at level 100, m at next level, right associativity) : js_scope.
Notation "m ;; k" := (Effects.bind m (fun _ => k))
  (at level 100, right associativity) : js_scope.

(* ===================================================================== *)
(** ** [services/authService] *)
(* ===================================================================== *)

Module Auth.
Import JS Json Effects.
Local Open Scope js_scope.

Definition USER_KEY : jsstring := lit "financelyai_user".
Definition SESSION_KEY : jsstring := lit "financelyai_session".

(** [hashArray.map(b => b.toString(16).padStart(2, '0')).join('')] *)
Definition hex_of_bytes (hashArray : list N) : jsstring :=
  flat_map (fun b => padStart 2 48 (toString16 b)) hashArray.

Definition hashPassword (password salt : jsstring) : jsstring :=
  let data := encode (password ++ salt) in
  let hashBuffer := Sha256.digest data in
  hex_of_bytes hashBuffer.

(** The object [{ name, salt, hash }] that [signUp] stores. *)
Record UserData : Type := { name : jsstring; salt : jsstring; hash : jsstring }.

(** [JSON.stringify(userData)]: properties in the order they were written. *)
Definition stringify_user (userData : UserData) : jsstring :=
  stringify_object
    [(lit "name", name userData); (lit "salt", salt userData);
     (lit "hash", hash userData)].

(** [JSON.parse(text)] as a call. *)
Definition JSON_parse (text : jsstring) : M value :=
  match parse text with
  | Some v => ret v
  | None => throw SyntaxError
  end.

(** [v.k], and [k] in a destructuring of [v], for the property names
    [name], [salt] and [hash], which no built-in prototype defines: a
    [TypeError] on [null], the own property of an object, [undefined] on
    anything else. *)
Definition get (v : value) (k : jsstring) : M value :=
  match v with
  | VNull | VUndefined => throw TypeError
  | VObject props => ret (default VUndefined (own_property k props))
  | _ => ret VUndefined
  end.

(** [uuid] is what [crypto.randomUUID()] returns in this call. *)
Definition signUp (uuid : jsstring) (name pass : jsstring) : M bool :=
  existing <- getItem USER_KEY ;;
  if truthy existing then ret false
  else
    let salt := uuid in
    let hash := hashPassword pass salt in
    let userData := {| name := name; salt := salt; hash := hash |} in
    setItem USER_KEY (stringify_user userData) ;;
    setItem SESSION_KEY (lit "true") ;;
    ret true.

Section Login.

Variable number_to_string : jsstring -> jsstring.

(** [salt] and [storedHash] come out of [JSON.parse], so they can be any
    value: [password + salt] inside [hashPassword] converts the salt to a
    string, and [===] is false for a stored hash that is not a string. *)
Definition login (pass : jsstring) : M bool :=
  userDataString <- getItem USER_KEY ;;
  match userDataString with
  | None | Some [] => ret false
  | Some text =>
      parsed <- JSON_parse text ;;
      salt <- get parsed (lit "salt") ;;
      storedHash <- get parsed (lit "hash") ;;
      let inputHash := hashPassword pass (to_string number_to_string salt) in
      if strict_equal inputHash storedHash then
        setItem SESSION_KEY (lit "true") ;;
        ret true
      else ret false
  end.

End Login.

Definition logout : M unit := removeItem SESSION_KEY.

Definition doesAccountExist : M bool :=
  v <- getItem USER_KEY ;;
  ret (truthy v).

Definition checkAuth : M bool :=
  v <- getItem SESSION_KEY ;;
  ret match v with
      | Some s => str_eqb s (lit "true")
      | None => false
      end.

(** The result [{ name: ... }] of [getAuthenticatedUser]. *)
Record AuthUser : Type := { user_name : value }.

(** [None] is the [null] result. *)
Definition getAuthenticatedUser : M (option AuthUser) :=
  userDataString <- getItem USER_KEY ;;
  match userDataString with
  | None | Some [] => ret None
  | Some text =>
      parsed <- JSON_parse text ;;
      n <- get parsed (lit "name") ;;
      ret (Some {| user_name := n |})
  end.

End Auth.

(* ===================================================================== *)
(** ** [App]: the start-up check and the choice of screen *)
(* ===================================================================== *)

Module App.
Import JS Effects.
Local Open Scope js_scope.

(** The three [useState] cells the authentication flow touches. *)
Record AppState : Type := {
  isAuthenticated : bool;
  hasAccount : bool;
  isLoadingAuth : bool
}.

(** [useState(false)], [useState(false)], [useState(true)]. *)
Definition initial : AppState :=
  {| isAuthenticated := false; hasAccount := false; isLoadingAuth := true |}.

Definition setIsAuthenticated (b : bool) (app : AppState) : AppState :=
  {| isAuthenticated := b; hasAccount := hasAccount app;
     isLoadingAuth := isLoadingAuth app |}.
Definition setHasAccount (b : bool) (app : AppState) : AppState :=
  {| isAuthenticated := isAuthenticated app; hasAccount := b;
     isLoadingAuth := isLoadingAuth app |}.
Definition setIsLoadingAuth (b : bool) (app : AppState) : AppState :=
  {| isAuthenticated := isAuthenticated app; hasAccount := hasAccount app;
     isLoadingAuth := b |}.

(** The effect run once when [App] mounts. *)
Definition checkUserStatus (app : AppState) : M AppState :=
  accountExists <- Auth.doesAccountExist ;;
  let app := setHasAccount accountExists app in
  app <- (if accountExists then
            loggedIn <- Auth.checkAuth ;;
            ret (if loggedIn then setIsAuthenticated true app else app)
          else ret app) ;;
  ret (setIsLoadingAuth false app).

Inductive Screen : Type :=
| SecuringSession     (* the loading screen shown while [isLoadingAuth] *)
| LoginScreen
| SignUpScreen
| Application.        (* the data loading screen, then the application *)

(** The chain of early returns in the body of [App]. *)
Definition render (app : AppState) : Screen :=
  if isLoadingAuth app then SecuringSession
  else if negb (isAuthenticated app) then
    (if hasAccount app then LoginScreen else SignUpScreen)
  else Application.

(** [handleSignUp], [handleLogin], [handleLogout]; the calls into the
    expense database are left out. *)
Definition handleSignUp (uuid name pass : jsstring) (app : AppState) :
  M (bool * AppState) :=
  success <- Auth.signUp uuid name pass ;;
  ret (success,
       if success then setHasAccount true (setIsAuthenticated true app) else app).

Definition handleLogin (number_to_string : jsstring -> jsstring)
  (pass : jsstring) (app : AppState) : M (bool * AppState) :=
  success <- Auth.login number_to_string pass ;;
  ret (success, if success then setIsAuthenticated true app else app).

Definition handleLogout (app : AppState) : M AppState :=
  Auth.logout ;;
  ret (setIsAuthenticated false app).

End App.

(* ===================================================================== *)
(** ** Auxiliary definitions used in the statements and proofs *)
(* ===================================================================== *)

Module Reading.
Import JS Json Effects Auth.

(** A lowercase hexadecimal digit: [0-9] or [a-f]. *)
Definition lower_hex (c : N) : bool :=
  ((48 <=? c) && (c <=? 57)) || ((97 <=? c) && (c <=? 102)).

(** The parsed form of a property that holds a string. *)
Definition string_prop (kv : jsstring * jsstring) : jsstring * value :=
  (fst kv, VString (snd kv)).

(** [getAuthenticatedUser] as a function of the stored user text alone. *)
Definition user_of_text (v : option jsstring) : outcome (option AuthUser) :=
  match v with
  | None | Some [] => Returns None
  | Some text =>
      match parse text with
      | None => Throws SyntaxError
      | Some VNull | Some VUndefined => Throws TypeError
      | Some (VObject props) =>
          Returns (Some {| user_name :=
                             default VUndefined (own_property (lit "name") props) |})
      | Some _ => Returns (Some {| user_name := VUndefined |})
      end
  end.

(** [enough run f]: a run that succeeds with fuel [f] consumes input, and
    succeeds with the same result on any fuel of at least twice what it
    consumed. *)
Definition enough {A : Type} (run : nat -> jsstring -> option (A * jsstring))
  (f : nat) : Prop :=
  forall (s : jsstring) (v : A) (r : jsstring),
    run f s = Some (v, r) ->
    (length r < length s)%nat /\
    forall f' : nat,
      (2 * (length s - length r) <= f')%nat -> run f' s = Some (v, r).

(** A UTF-8 continuation byte: [10xxxxxx]. *)
Definition is_continuation (b : N) : bool := (0x80 <=? b) && (b <? 0xC0).

(** The number of bytes that start a character. *)
Definition count_starts (bytes : list N) : nat :=
  length (List.filter (fun b => negb (is_continuation b)) bytes).

Section LoginResult.

Variable number_to_string : jsstring -> jsstring.

(** [login] as a function of the stored user text: the value it returns,
    the session flag being written exactly when that value is [true]. *)
Definition login_result (pass : jsstring) (v : option jsstring) : outcome bool :=
  match v with
  | None | Some [] => Returns false
  | Some text =>
      match parse text with
      | None => Throws SyntaxError
      | Some VNull | Some VUndefined => Throws TypeError
      | Some (VObject props) =>
          Returns
            (strict_equal
               (hashPassword pass
                  (to_string number_to_string
                     (default VUndefined (own_property (lit "salt") props))))
               (default VUndefined (own_property (lit "hash") props)))
      | Some _ => Returns false
      end
  end.

End LoginResult.

(** A sample run, used to exhibit the theorems at a concrete input: the
    scenario of the specification, with a salt of the shape
    [crypto.randomUUID] returns. *)
Definition sample_name : jsstring := lit "Priya".
Definition sample_password : jsstring := lit "secret1".
Definition sample_uuid : jsstring := lit "3f2b8c1e-7a4d-4e6f-9b0a-5c1d2e3f4a5b".
Definition sample_uuid2 : jsstring := lit "9d3c1f0a-2b4e-4c8d-a1f2-0e9d8c7b6a59".
Definition sample_user : UserData :=
  {| name := sample_name; salt := sample_uuid;
     hash := hashPassword sample_password sample_uuid |}.
Definition sample_store : Storage :=
  <[SESSION_KEY := lit "true"]> (<[USER_KEY := stringify_user sample_user]> ∅).

End Reading.

(* ===================================================================== *)
(** ** [components/auth/Login] and [components/auth/SignUp] *)
(* ===================================================================== *)

(** The two forms.  Each is given a callback by [App]; the callback acts on
    a world the form knows nothing about (for [App]: its own state and the
    storage).  A state update made before the callback throws stays made. *)

Module LoginForm.
Import JS Effects.

(** [password], [error], [isLoading]. *)
Record State : Type := {
  password : jsstring;
  error : jsstring;
  isLoading : bool
}.

(** [useState('')], [useState('')], [useState(false)]. *)
Definition initial : State :=
  {| password := []; error := []; isLoading := false |}.

Definition setPassword (v : jsstring) (st : State) : State :=
  {| password := v; error := error st; isLoading := isLoading st |}.
Definition setError (v : jsstring) (st : State) : State :=
  {| password := password st; error := v; isLoading := isLoading st |}.
Definition setIsLoading (b : bool) (st : State) : State :=
  {| password := password st; error := error st; isLoading := b |}.

Section HandleSubmit.

Variable World : Type.
Variable onLogin : jsstring -> World -> outcome bool * World.

Definition handleSubmit (st : State) (w : World) : State * outcome unit * World :=
  let st := setError [] st in
  let st := setIsLoading true st in
  match onLogin (password st) w with
  | (Returns success, w') =>
      let st :=
        if negb success
        then setError (lit "Invalid password. Please try again.") st
        else st in
      (setIsLoading false st, Returns tt, w')
  | (Throws e, w') => (st, Throws e, w')
  end.

End HandleSubmit.

Arguments handleSubmit {World} _ _ _.

(** The submit button is [disabled={isLoading}]. *)
Definition can_submit (st : State) : bool := negb (isLoading st).

End LoginForm.

Module SignUpForm.
Import JS Effects.

(** [name], [password], [confirmPassword], [error], [isLoading]. *)
Record State : Type := {
  name : jsstring;
  password : jsstring;
  confirmPassword : jsstring;
  error : jsstring;
  isLoading : bool
}.

Definition initial : State :=
  {| name := []; password := []; confirmPassword := []; error := [];
     isLoading := false |}.

Definition setError (v : jsstring) (st : State) : State :=
  {| name := name st; password := password st;
     confirmPassword := confirmPassword st; error := v;
     isLoading := isLoading st |}.
Definition setIsLoading (b : bool) (st : State) : State :=
  {| name := name st; password := password st;
     confirmPassword := confirmPassword st; error := error st;
     isLoading := b |}.

Section HandleSubmit.

Variable World : Type.
Variable onSignUp : jsstring -> jsstring -> World -> outcome bool * World.

(** [password.length] counts UTF-16 code units. *)
Definition handleSubmit (st : State) (w : World) : State * outcome unit * World :=
  if negb (str_eqb (password st) (confirmPassword st)) then
    (setError (lit "Passwords do not match.") st, Returns tt, w)
  else if (length (password st) <? 6)%nat then
    (setError (lit "Password must be at least 6 characters long.") st,
     Returns tt, w)
  else
    let st := setError [] st in
    let st := setIsLoading true st in
    match onSignUp (name st) (password st) w with
    | (Returns success, w') =>
        let st :=
          if negb success
          then setError
                 (lit "An account might already exist. Try refreshing the page.") st
          else st in
        (setIsLoading false st, Returns tt, w')
    | (Throws e, w') => (st, Throws e, w')
    end.

End HandleSubmit.

Arguments handleSubmit {World} _ _ _.

End SignUpForm.

(* ===================================================================== *)
(** ** [App] with its two forms *)
(* ===================================================================== *)

Module Shell.
Import JS Effects.

(** What the callbacks of [App] act on: the state of [App] and the
    storage. *)
Definition World : Type := (App.AppState * Storage)%type.

(** [handleSignUp] and [handleLogin] as the forms see them: a promise of a
    boolean.  When the service throws, no state of [App] has been set. *)
Definition onSignUp (uuid : jsstring) (name pass : jsstring) (w : World) :
  outcome bool * World :=
  match App.handleSignUp uuid name pass (fst w) (snd w) with
  | (Returns (success, app'), ls') => (Returns success, (app', ls'))
  | (Throws e, ls') => (Throws e, (fst w, ls'))
  end.

Definition onLogin (number_to_string : jsstring -> jsstring) (pass : jsstring)
  (w : World) : outcome bool * World :=
  match App.handleLogin number_to_string pass (fst w) (snd w) with
  | (Returns (success, app'), ls') => (Returns success, (app', ls'))
  | (Throws e, ls') => (Throws e, (fst w, ls'))
  end.

(** One interaction with a mounted [App]: each handler can only be reached
    from the screen that shows its control.  A handler that throws leaves
    the state of [App] as it was. *)
Inductive step (number_to_string : jsstring -> jsstring) : World -> World -> Prop :=
| step_signUp (uuid name pass : jsstring) (w : World) (r : outcome bool) (w' : World) :
    App.render (fst w) = App.SignUpScreen ->
    onSignUp uuid name pass w = (r, w') ->
    step number_to_string w w'
| step_login (pass : jsstring) (w : World) (r : outcome bool) (w' : World) :
    App.render (fst w) = App.LoginScreen ->
    onLogin number_to_string pass w = (r, w') ->
    step number_to_string w w'
| step_logout (w : World) (app' : App.AppState) (ls' : Storage) :
    App.render (fst w) = App.Application ->
    App.handleLogout (fst w) (snd w) = (Returns app', ls') ->
    step number_to_string w (app', ls').

(** The worlds [App] can be in: the one the start-up check leaves, and
    those one more interaction away. *)
Inductive reachable (number_to_string : jsstring -> jsstring) (ls0 : Storage) :
  World -> Prop :=
| reach_start (app : App.AppState) (ls : Storage) :
    App.checkUserStatus App.initial ls0 = (Returns app, ls) ->
    reachable number_to_string ls0 (app, ls)
| reach_step (w w' : World) :
    reachable number_to_string ls0 w ->
    step number_to_string w w' ->
    reachable number_to_string ls0 w'.

(** The state of [App] mirrors the storage. *)
Definition in_sync (w : World) : Prop :=
  App.isLoadingAuth (fst w) = false /\
  App.hasAccount (fst w) = truthy (snd w !! Auth.USER_KEY) /\
  App.isAuthenticated (fst w) =
    truthy (snd w !! Auth.USER_KEY) &&
    bool_decide (snd w !! Auth.SESSION_KEY = Some (lit "true")).

End Shell.

(* ===================================================================== *)
(** ** [components/EditMemberModal] *)
(* ===================================================================== *)

Module Trim.
Import JS.

(** [WhiteSpace] and [LineTerminator] code points, all in one code unit. *)
Definition is_white_space (c : N) : bool :=
  (c =? 0x9) || (c =? 0xA) || (c =? 0xB) || (c =? 0xC) || (c =? 0xD) ||
  (c =? 0x20) || (c =? 0xA0) || (c =? 0x1680) ||
  ((0x2000 <=? c) && (c <=? 0x200A)) ||
  (c =? 0x2028) || (c =? 0x2029) || (c =? 0x202F) || (c =? 0x205F) ||
  (c =? 0x3000) || (c =? 0xFEFF).

Fixpoint trimStart (s : jsstring) : jsstring :=
  match s with
  | c :: r => if is_white_space c then trimStart r else s
  | [] => []
  end.

Definition trimEnd (s : jsstring) : jsstring := rev (trimStart (rev s)).

(** [s.trim()] *)
Definition trim (s : jsstring) : jsstring := trimEnd (trimStart s).

(** [!s]: the empty string is the only falsy string. *)
Definition is_empty (s : jsstring) : bool :=
  match s with
  | [] => true
  | _ :: _ => false
  end.

End Trim.

Module EditMemberModal.
Import JS Trim.

Section Modal.

(** The properties of a [Member] other than [id], [name] and [avatarUrl],
    if the type has any (its declaration is in [types], not here); an
    object literal with the three named properties is a [Member], so any
    others are optional and [no_other] is their absence. *)
Variable Other : Type.
Variable no_other : Other.

Record Member : Type := {
  id : jsstring;
  name : jsstring;
  avatarUrl : jsstring;
  other : Other
}.

(** Of an expense and of a split, the one property the modal reads. *)
Record Split : Type := { split_memberId : jsstring }.
Record Expense : Type := { memberId : jsstring; splits : list Split }.

(** Of the household, the two properties the modal reads. *)
Record Household : Type := { members : list Member; expenses : list Expense }.

(** What a handler does to the outside, in order.  [Confirm] records the
    question asked by [window.confirm]. *)
Inductive action : Type :=
| Alert (message : jsstring)
| Confirm (message : jsstring)
| Update (updatedMembers : list Member)   (* [onUpdate({ members })] *)
| Close.                                  (* [onClose()] *)

(** The effect that fills the form when the modal opens: [stamp] is the
    text of [Date.now()]. *)
Definition fill_form (member : option Member) (stamp : jsstring) :
  jsstring * jsstring :=
  match member with
  | Some m => (name m, avatarUrl m)
  | None => ([], lit "https://i.pravatar.cc/150?u=" ++ stamp)
  end.

(** The arrow function mapped over the members when editing:
    [m => m.id === member.id ? { ...m, name: ..., avatarUrl: ... } : m]. *)
Definition edited (member : Member) (name avatarUrl : jsstring) (m : Member) :
  Member :=
  if str_eqb (id m) (id member)
  then {| id := id m; name := trim name;
          avatarUrl := trim avatarUrl; other := other m |}
  else m.

(** [member] is [None] for a new member; [name] and [avatarUrl] are the
    two fields of the form; [uuid] is what [crypto.randomUUID()] returns if
    it is called. *)
Definition handleSubmit (member : option Member) (household : Household)
  (name avatarUrl : jsstring) (uuid : jsstring) : list action :=
  if is_empty (trim name) || is_empty (trim avatarUrl) then
    [Alert (lit "Please provide a name and avatar URL.")]
  else
    let updatedMembers :=
      match member with
      | Some member =>
          List.map (edited member name avatarUrl) (members household)
      | None =>
          let newMember :=
            {| id := lit "mem-" ++ uuid; name := trim name;
               avatarUrl := trim avatarUrl; other := no_other |} in
          members household ++ [newMember]
      end in
    [Update updatedMembers; Close].

(** [confirmed] is the answer [window.confirm] gives if it is asked. *)
Definition handleDelete (member : option Member) (household : Household)
  (confirmed : bool) : list action :=
  match member with
  | None => []
  | Some member =>
      let hasExpenses :=
        existsb
          (fun exp =>
             str_eqb (memberId exp) (id member) ||
             existsb (fun split => str_eqb (split_memberId split) (id member))
                     (splits exp))
          (expenses household) in
      if hasExpenses then
        [Alert (lit "Cannot delete " ++ name member ++
                lit ". They are associated with existing expenses. Please re-assign their expenses before deleting.")]
      else
        let question :=
          lit "Are you sure you want to delete " ++ name member ++
          lit "? This cannot be undone." in
        if confirmed then
          let updatedMembers :=
            List.filter (fun m => negb (str_eqb (id m) (id member)))
                        (members household) in
          [Confirm question; Update updatedMembers; Close]
        else [Confirm question]
  end.

(** The member lists a handler passes to [onUpdate]. *)
Fixpoint updates (acts : list action) : list (list Member) :=
  match acts with
  | [] => []
  | Update ms :: rest => ms :: updates rest
  | _ :: rest => updates rest
  end.

(** Some member of the list has this id. *)
Definition has_member (ms : list Member) (i : jsstring) : bool :=
  existsb (fun m => str_eqb (id m) i) ms.

(** Every expense is paid by a member of the list and split among members
    of the list. *)
Definition refs_ok (ms : list Member) (es : list Expense) : Prop :=
  forall exp, In exp es ->
    has_member ms (memberId exp) = true /\
    forall split, In split (splits exp) ->
      has_member ms (split_memberId split) = true.

(** A name or URL as the modal stores it: not empty, no white space at
    either end. *)
Definition trimmed (s : jsstring) : Prop :=
  s <> [] /\
  (forall c r, s = c :: r -> is_white_space c = false) /\
  (forall c r, s = r ++ [c] -> is_white_space c = false).

End Modal.

Arguments id {Other} _.
Arguments name {Other} _.
Arguments avatarUrl {Other} _.
Arguments other {Other} _.
Arguments members {Other} _.
Arguments expenses {Other} _.
Arguments Alert {Other} _.
Arguments Confirm {Other} _.
Arguments Update {Other} _.
Arguments Close {Other}.
Arguments fill_form {Other} _ _.
Arguments edited {Other} _ _ _ _.
Arguments handleSubmit {Other} _ _ _ _ _ _.
Arguments handleDelete {Other} _ _ _.
Arguments updates {Other} _.
Arguments has_member {Other} _ _.
Arguments refs_ok {Other} _ _.

End EditMemberModal.

(** A household of two members, the first of whom paid the one expense,
    which is split on her alone; used to exhibit the theorems on the member
    modal. *)
Module MemberSamples.
Import JS.

Definition asha : EditMemberModal.Member unit :=
  {| EditMemberModal.id := lit "mem-1"; EditMemberModal.name := lit "Asha";
     EditMemberModal.avatarUrl := lit "https://i.pravatar.cc/150?u=1";
     EditMemberModal.other := tt |}.
Definition rohan : EditMemberModal.Member unit :=
  {| EditMemberModal.id := lit "mem-2"; EditMemberModal.name := lit "Rohan";
     EditMemberModal.avatarUrl := lit "https://i.pravatar.cc/150?u=2";
     EditMemberModal.other := tt |}.
Definition groceries : EditMemberModal.Expense :=
  {| EditMemberModal.memberId := lit "mem-1";
     EditMemberModal.splits := [ {| EditMemberModal.split_memberId := lit "mem-1" |} ] |}.
Definition home : EditMemberModal.Household unit :=
  {| EditMemberModal.members := [asha; rohan];
     EditMemberModal.expenses := [groceries] |}.

End MemberSamples.

(* ===================================================================== *)
(** * Properties *)
(* ===================================================================== *)

Import JS Json Effects Auth Reading.

(** ** Strings and hexadecimal digits *)

Lemma str_eqb_refl (a : jsstring) : str_eqb a a = true.
Proof.
  induction a as [|x a IH]; simpl; [reflexivity|].
  rewrite N.eqb_refl. exact IH.
Qed.

Lemma str_eqb_eq (a b : jsstring) : str_eqb a b = true <-> a = b.
Proof.
  split.
  - revert b. induction a as [|x a IH]; intros [|y b] H; simpl in H;
      try discriminate; [reflexivity|].
    apply andb_true_iff in H as [Hxy Hab].
    apply N.eqb_eq in Hxy. f_equal; [exact Hxy | apply IH, Hab].
  - intros ->. apply str_eqb_refl.
Qed.

Lemma str_eqb_neq (a b : jsstring) : str_eqb a b = false <-> a <> b.
Proof.
  rewrite <- str_eqb_eq. destruct (str_eqb a b); split; intros H;
    try reflexivity; try discriminate; try (intros H'; discriminate).
  exfalso. apply H. reflexivity.
Qed.

(** A property checked on [0 .. n-1] holds of every number below [n]. *)
Lemma forall_below (P : N -> bool) (n : nat) :
  forallb P (List.map N.of_nat (seq 0 n)) = true ->
  forall b, b < N.of_nat n -> P b = true.
Proof.
  intros H b Hb. rewrite forallb_forall in H. apply H.
  apply in_map_iff. exists (N.to_nat b). split; [apply N2Nat.id|].
  apply in_seq. lia.
Qed.

Lemma hex_digit_lower (d : N) : d < 16 -> lower_hex (hex_digit d) = true.
Proof. apply (forall_below (fun d => lower_hex (hex_digit d)) 16). reflexivity. Qed.

(** [b.toString(16).padStart(2, '0')] of a byte: the two nibbles. *)
Lemma hex_of_byte (b : N) :
  b < 256 -> padStart 2 48 (toString16 b) = [hex_digit (b / 16); hex_digit (b mod 16)].
Proof.
  intros Hb. apply str_eqb_eq. revert b Hb.
  apply (forall_below
           (fun b => str_eqb (padStart 2 48 (toString16 b))
                             [hex_digit (b / 16); hex_digit (b mod 16)]) 256).
  vm_compute. reflexivity.
Qed.

Lemma nibble_lt (x : N) : x mod 16 < 16.
Proof. apply N.mod_lt. discriminate. Qed.

Lemma lead_surrogate (c : N) : is_lead c = true -> is_surrogate c = true.
Proof.
  unfold is_lead, is_surrogate. intros H. apply andb_true_iff in H as [H1 H2].
  apply N.leb_le in H1, H2. apply andb_true_iff. split; apply N.leb_le; lia.
Qed.

Lemma trail_surrogate (c : N) : is_trail c = true -> is_surrogate c = true.
Proof.
  unfold is_trail, is_surrogate. intros H. apply andb_true_iff in H as [H1 H2].
  apply N.leb_le in H1, H2. apply andb_true_iff. split; apply N.leb_le; lia.
Qed.

(** ** SHA-256 *)

Lemma be32_length (x : N) : length (Sha256.be32 x) = 4%nat.
Proof. reflexivity. Qed.

Lemma be32_bytes (x : N) : Forall (fun b => b < 256) (Sha256.be32 x).
Proof. unfold Sha256.be32. repeat constructor; apply N.mod_lt; discriminate. Qed.

Lemma bytes_of_words8_length (hv : Sha256.words8) :
  length (Sha256.bytes_of_words8 hv) = 32%nat.
Proof. destruct hv as [[[[[[[a b] c] d] e] f] g] h]. reflexivity. Qed.

Lemma bytes_of_words8_bytes (hv : Sha256.words8) :
  Forall (fun b => b < 256) (Sha256.bytes_of_words8 hv).
Proof.
  destruct hv as [[[[[[[a b] c] d] e] f] g] h]. unfold Sha256.bytes_of_words8.
  repeat (apply Forall_app; split); apply be32_bytes.
Qed.

(** The digest is 32 bytes long whatever the message. *)
Lemma digest_length (msg : list N) : length (Sha256.digest msg) = 32%nat.
Proof. apply bytes_of_words8_length. Qed.

Lemma digest_bytes (msg : list N) : Forall (fun b => b < 256) (Sha256.digest msg).
Proof. apply bytes_of_words8_bytes. Qed.

(** The model agrees with the three standard test vectors: the empty
    message, a one-block message and a two-block message. *)
Example digest_empty :
  hex_of_bytes (Sha256.digest (encode (lit ""))) =
  lit "e3b0c44298fc1c149afbf4c8996fb92427ae41e4649b934ca495991b7852b855".
Proof. vm_compute. reflexivity. Qed.

Example digest_abc :
  hex_of_bytes (Sha256.digest (encode (lit "abc"))) =
  lit "ba7816bf8f01cfea414140de5dae2223b00361a396177a9cb410ff61f20015ad".
Proof. vm_compute. reflexivity. Qed.

Example digest_two_blocks :
  hex_of_bytes
    (Sha256.digest
       (encode (lit "abcdbcdecdefdefgefghfghighijhijkijkljklmklmnlmnomnopnopq"))) =
  lit "248d6a61d20638b8e5c026930c3e6039a33ce45964ff2167f6ecedd419db06c1".
Proof. vm_compute. reflexivity. Qed.

(** [TextEncoder]: ASCII as is, two and three bytes, a surrogate pair as
    four bytes, a lone surrogate as U+FFFD. *)
Example encode_sample :
  encode [0x41; 0xE9; 0x4E2D; 0xD83D; 0xDE00; 0xD83D; 0x41; 0xDE00] =
  [0x41; 0xC3; 0xA9; 0xE4; 0xB8; 0xAD; 0xF0; 0x9F; 0x98; 0x80;
   0xEF; 0xBF; 0xBD; 0x41; 0xEF; 0xBF; 0xBD].
Proof. reflexivity. Qed.

(** ** The hash string *)

Lemma hex_of_bytes_nibbles (l : list N) :
  Forall (fun b => b < 256) l ->
  hex_of_bytes l = flat_map (fun b => [hex_digit (b / 16); hex_digit (b mod 16)]) l.
Proof.
  induction 1 as [|b l Hb _ IH]; [reflexivity|].
  unfold hex_of_bytes in *. simpl. rewrite IH, (hex_of_byte b Hb). reflexivity.
Qed.

Lemma nibbles_length (l : list N) :
  length (flat_map (fun b => [hex_digit (b / 16); hex_digit (b mod 16)]) l)
  = (2 * length l)%nat.
Proof. induction l as [|b l IH]; simpl; [reflexivity | rewrite IH; lia]. Qed.

Lemma nibbles_lower_hex (l : list N) :
  Forall (fun b => b < 256) l ->
  Forall (fun c => lower_hex c = true)
         (flat_map (fun b => [hex_digit (b / 16); hex_digit (b mod 16)]) l).
Proof.
  induction 1 as [|b l Hb _ IH]; simpl; [constructor|].
  constructor; [|constructor; [|exact IH]]; apply hex_digit_lower.
  - apply N.Div0.div_lt_upper_bound. exact Hb.
  - apply N.mod_lt. discriminate.
Qed.

(** ** From the hash string back to the digest *)

Lemma hex_digit_inj (d e : N) : d < 16 -> e < 16 -> hex_digit d = hex_digit e -> d = e.
Proof.
  unfold hex_digit. intros Hd He.
  destruct (d <? 10) eqn:Ed; destruct (e <? 10) eqn:Ee;
    try apply N.ltb_lt in Ed; try apply N.ltb_ge in Ed;
    try apply N.ltb_lt in Ee; try apply N.ltb_ge in Ee; lia.
Qed.

Lemma nibbles_inj (l1 l2 : list N) :
  Forall (fun b => b < 256) l1 -> Forall (fun b => b < 256) l2 ->
  flat_map (fun b => [hex_digit (b / 16); hex_digit (b mod 16)]) l1 =
  flat_map (fun b => [hex_digit (b / 16); hex_digit (b mod 16)]) l2 ->
  l1 = l2.
Proof.
  intros H1. revert l2. induction H1 as [|b l1 Hb _ IH]; intros l2 H2 H.
  - destruct l2; [reflexivity | discriminate H].
  - destruct H2 as [|b' l2 Hb' H2]; [discriminate H|].
    cbn [flat_map app] in H. injection H as Hhi Hlo Hrest.
    apply hex_digit_inj in Hhi;
      [|apply N.Div0.div_lt_upper_bound; assumption ..].
    apply hex_digit_inj in Hlo; [|apply nibble_lt ..].
    f_equal; [|apply IH; assumption].
    rewrite (N.div_mod b 16), (N.div_mod b' 16) by discriminate. congruence.
Qed.

(** Two hash strings are equal exactly when the two digests are. *)
Lemma hashPassword_eq_digest (p1 s1 p2 s2 : jsstring) :
  hashPassword p1 s1 = hashPassword p2 s2 <->
  Sha256.digest (encode (p1 ++ s1)) = Sha256.digest (encode (p2 ++ s2)).
Proof.
  split.
  - unfold hashPassword. rewrite !hex_of_bytes_nibbles by apply digest_bytes.
    apply nibbles_inj; apply digest_bytes.
  - unfold hashPassword. intros ->. reflexivity.
Qed.

(** ** The bytes that are hashed *)

Lemma continuation_byte (x : N) : is_continuation (0x80 + x mod 0x40) = true.
Proof.
  unfold is_continuation.
  apply andb_true_intro. split; [apply N.leb_le | apply N.ltb_lt];
    zify; Z.to_euclidean_division_equations; lia.
Qed.

Lemma start_byte_high (base x : N) : 0xC0 <= base -> is_continuation (base + x) = false.
Proof.
  intros H. unfold is_continuation. apply andb_false_iff. right.
  apply N.ltb_ge. lia.
Qed.

(** Every scalar value is written as one start byte and continuation
    bytes. *)
Lemma utf8_of_scalar_starts (cp : N) : count_starts (utf8_of_scalar cp) = 1%nat.
Proof.
  unfold utf8_of_scalar, count_starts.
  destruct (cp <? 0x80) eqn:E1.
  { apply N.ltb_lt in E1. cbn [List.filter].
    replace (is_continuation cp) with false; [reflexivity|].
    symmetry. unfold is_continuation. apply andb_false_iff. left.
    apply N.leb_gt. exact E1. }
  destruct (cp <? 0x800); [|destruct (cp <? 0x10000)]; cbn [List.filter];
    rewrite ?continuation_byte, start_byte_high by discriminate; reflexivity.
Qed.

Lemma count_starts_app (a b : list N) :
  count_starts (a ++ b) = (count_starts a + count_starts b)%nat.
Proof. unfold count_starts. rewrite List.filter_app, length_app. reflexivity. Qed.

Lemma count_starts_encode (s : jsstring) :
  count_starts (encode s) = length (scalar_values s).
Proof.
  unfold encode. induction (scalar_values s) as [|cp l IH]; [reflexivity|].
  cbn [flat_map length]. rewrite count_starts_app, utf8_of_scalar_starts, IH.
  reflexivity.
Qed.

Lemma trail_not_lead (c : N) : is_trail c = true -> is_lead c = false.
Proof.
  unfold is_trail, is_lead. intros H. apply andb_true_iff in H as [H1 _].
  apply N.leb_le in H1. apply andb_false_iff. right. apply N.leb_gt. lia.
Qed.

Lemma not_surrogate (c : N) :
  is_surrogate c = false -> is_lead c = false /\ is_trail c = false.
Proof.
  intros H.
  destruct (is_lead c) eqn:El; [apply lead_surrogate in El; congruence|].
  destruct (is_trail c) eqn:Et; [apply trail_surrogate in Et; congruence|].
  split; reflexivity.
Qed.

Lemma scalar_values_cons (c : N) (s : jsstring) :
  is_lead c = false ->
  scalar_values (c :: s) = (if is_trail c then 0xFFFD else c) :: scalar_values s.
Proof. intros H. cbn [scalar_values]. rewrite H. destruct (is_trail c); reflexivity. Qed.

Lemma scalar_values_lead (c : N) (s : jsstring) :
  is_lead c = true ->
  scalar_values (c :: s) =
  match s with
  | d :: s' =>
      if is_trail d
      then (0x10000 + (c - 0xD800) * 0x400 + (d - 0xDC00)) :: scalar_values s'
      else 0xFFFD :: scalar_values s
  | [] => [0xFFFD]
  end.
Proof. intros H. cbn [scalar_values]. rewrite H. reflexivity. Qed.

(** A code unit that is not a surrogate splits the string for
    [scalar_values]. *)
Lemma scalar_values_split (n : nat) :
  forall (p : jsstring) (c : N) (s : jsstring),
    (length p <= n)%nat -> is_surrogate c = false ->
    scalar_values (p ++ c :: s) = scalar_values p ++ c :: scalar_values s.
Proof.
  induction n as [|n IH]; intros p c s Hn Hc;
    destruct (not_surrogate c Hc) as [Hlead Htrail].
  - destruct p; [|simpl in Hn; lia].
    cbn [app]. rewrite scalar_values_cons, Htrail by exact Hlead. reflexivity.
  - destruct p as [|a p'].
    { cbn [app]. rewrite scalar_values_cons, Htrail by exact Hlead. reflexivity. }
    cbn [length] in Hn. cbn [app].
    destruct (is_lead a) eqn:Ea.
    + rewrite !scalar_values_lead by exact Ea.
      destruct p' as [|d p''].
      * cbn [app]. rewrite Htrail.
        rewrite scalar_values_cons, Htrail by exact Hlead. reflexivity.
      * cbn [app length] in Hn |- *. destruct (is_trail d).
        -- rewrite IH by (assumption || lia). reflexivity.
        -- change (d :: p'' ++ c :: s) with ((d :: p'') ++ c :: s).
           rewrite (IH (d :: p'')) by (assumption || (cbn [length]; lia)).
           reflexivity.
    + rewrite !scalar_values_cons by exact Ea.
      rewrite IH by (assumption || lia). reflexivity.
Qed.

(** Joining two strings never yields more scalar values than the two
    have apart: a pair may form at the seam. *)
Lemma scalar_values_app_length (n : nat) :
  forall p s : jsstring,
    (length p <= n)%nat ->
    (length (scalar_values (p ++ s)) <=
     length (scalar_values p) + length (scalar_values s))%nat.
Proof.
  induction n as [|n IH]; intros p s Hn.
  - destruct p; [cbn [app scalar_values length]; lia | simpl in Hn; lia].
  - destruct p as [|a p']; [cbn [app scalar_values length]; lia|].
    cbn [length] in Hn. cbn [app].
    destruct (is_lead a) eqn:Ea.
    + rewrite !scalar_values_lead by exact Ea.
      destruct p' as [|d p''].
      * cbn [app]. destruct s as [|d s']; [cbn [length]; lia|].
        destruct (is_trail d) eqn:Ed.
        -- rewrite (scalar_values_cons d s') by (apply trail_not_lead, Ed).
           cbn [length]. lia.
        -- cbn [length]. lia.
      * cbn [app length] in Hn |- *. destruct (is_trail d).
        -- specialize (IH p'' s ltac:(lia)). cbn [length]. lia.
        -- specialize (IH (d :: p'') s ltac:(cbn [length]; lia)).
           cbn [app length] in IH |- *. lia.
    + rewrite !scalar_values_cons by exact Ea.
      specialize (IH p' s ltac:(lia)). cbn [length]. lia.
Qed.

(** Hashing [pass + "x"] and hashing [pass] with one salt: the two byte
    sequences given to the digest always differ. *)
Theorem extended_password_bytes (pass salt : jsstring) :
  encode ((pass ++ lit "x") ++ salt) <> encode (pass ++ salt).
Proof.
  intros H. apply (f_equal count_starts) in H.
  rewrite !count_starts_encode, <- app_assoc in H.
  change (lit "x" ++ salt) with (120 :: salt) in H.
  rewrite (scalar_values_split (length pass)) in H by reflexivity.
  pose proof (scalar_values_app_length (length pass) pass salt (le_n _)) as Hle.
  rewrite length_app in H. cbn [length] in H. lia.
Qed.

(** ** Strings of ASCII characters, such as the salts drawn *)

Lemma ascii_not_surrogate (c : N) : c < 128 -> is_surrogate c = false.
Proof.
  intros H. unfold is_surrogate. apply andb_false_iff. left. apply N.leb_gt. lia.
Qed.

Lemma scalar_values_ascii (s : jsstring) :
  Forall (fun c => c < 128) s -> scalar_values s = s.
Proof.
  induction 1 as [|c s Hc _ IH]; [reflexivity|].
  destruct (not_surrogate c (ascii_not_surrogate c Hc)) as [Hlead Htrail].
  rewrite scalar_values_cons, Htrail, IH by exact Hlead. reflexivity.
Qed.

Lemma encode_ascii (s : jsstring) : Forall (fun c => c < 128) s -> encode s = s.
Proof.
  intros H. unfold encode. rewrite scalar_values_ascii by exact H.
  induction H as [|c s Hc _ IH]; [reflexivity|].
  cbn [flat_map]. rewrite IH. unfold utf8_of_scalar.
  apply N.ltb_lt in Hc. rewrite Hc. reflexivity.
Qed.

(** The bytes of [prefix + s] for an ASCII string [s]: the bytes of the
    prefix, then [s] itself. *)
Lemma encode_app_ascii (prefix s : jsstring) :
  Forall (fun c => c < 128) s -> encode (prefix ++ s) = encode prefix ++ s.
Proof.
  intros H. destruct H as [|c s Hc Hs].
  - rewrite !app_nil_r. reflexivity.
  - unfold encode.
    rewrite (scalar_values_split (length prefix)), flat_map_app
      by (reflexivity || apply ascii_not_surrogate, Hc).
    f_equal.
    change (flat_map utf8_of_scalar (c :: scalar_values s))
      with (utf8_of_scalar c ++ encode s).
    rewrite (encode_ascii s Hs). unfold utf8_of_scalar.
    apply N.ltb_lt in Hc. rewrite Hc. reflexivity.
Qed.

Lemma distinct_salts_bytes (pass s1 s2 : jsstring) :
  Forall (fun c => c < 128) s1 -> Forall (fun c => c < 128) s2 ->
  s1 <> s2 -> encode (pass ++ s1) <> encode (pass ++ s2).
Proof.
  intros H1 H2 Hne H. rewrite !encode_app_ascii in H by assumption.
  apply app_inv_head in H. contradiction.
Qed.

(** ** [JSON.parse] inverts [JSON.stringify] *)

Lemma hex_value_hex_digit (d : N) : d < 16 -> hex_value (hex_digit d) = Some d.
Proof.
  intros Hd.
  assert (H : match hex_value (hex_digit d) with
              | Some x => x =? d
              | None => false
              end = true).
  { revert d Hd.
    apply (forall_below (fun d => match hex_value (hex_digit d) with
                                  | Some x => x =? d
                                  | None => false
                                  end) 16).
    reflexivity. }
  destruct (hex_value (hex_digit d)) as [x|]; [|discriminate].
  apply N.eqb_eq in H. congruence.
Qed.

Lemma nibbles_sum (c : N) :
  c < 65536 ->
  ((((c / 4096) mod 16) * 16 + (c / 256) mod 16) * 16 + (c / 16) mod 16) * 16
  + c mod 16 = c.
Proof. intros Hc. zify. Z.to_euclidean_division_equations. lia. Qed.

(** What [parse_chars] does with an escape written by [unicode_escape]. *)
Lemma parse_chars_unicode_escape (c : N) (rest : jsstring) :
  c < 65536 ->
  parse_chars (unicode_escape c ++ rest) = cons_fst c (parse_chars rest).
Proof.
  intros Hc. unfold unicode_escape.
  change (parse_chars ([92; 117; hex_digit ((c / 4096) mod 16);
                        hex_digit ((c / 256) mod 16);
                        hex_digit ((c / 16) mod 16); hex_digit (c mod 16)] ++ rest))
    with (match hex4_value (hex_digit ((c / 4096) mod 16))
                           (hex_digit ((c / 256) mod 16))
                           (hex_digit ((c / 16) mod 16)) (hex_digit (c mod 16)) with
          | Some u => cons_fst u (parse_chars rest)
          | None => None
          end).
  unfold hex4_value. rewrite !hex_value_hex_digit by apply nibble_lt.
  rewrite nibbles_sum by exact Hc. reflexivity.
Qed.

(** A code unit that stands for itself between the quotes. *)
Lemma parse_chars_plain (c : N) (rest : jsstring) :
  (c =? 34) = false -> (c =? 92) = false -> (c <? 32) = false ->
  parse_chars (c :: rest) = cons_fst c (parse_chars rest).
Proof. intros H1 H2 H3. simpl. rewrite H1, H2, H3. reflexivity. Qed.

Lemma parse_chars_escape_unit (c : N) (rest : jsstring) :
  parse_chars (escape_unit c ++ rest) = cons_fst c (parse_chars rest).
Proof.
  unfold escape_unit.
  destruct (c =? 8) eqn:E8; [apply N.eqb_eq in E8; subst; reflexivity|].
  destruct (c =? 9) eqn:E9; [apply N.eqb_eq in E9; subst; reflexivity|].
  destruct (c =? 10) eqn:E10; [apply N.eqb_eq in E10; subst; reflexivity|].
  destruct (c =? 12) eqn:E12; [apply N.eqb_eq in E12; subst; reflexivity|].
  destruct (c =? 13) eqn:E13; [apply N.eqb_eq in E13; subst; reflexivity|].
  destruct (c =? 34) eqn:E34; [apply N.eqb_eq in E34; subst; reflexivity|].
  destruct (c =? 92) eqn:E92; [apply N.eqb_eq in E92; subst; reflexivity|].
  destruct (c <? 32) eqn:E32.
  - apply parse_chars_unicode_escape. apply N.ltb_lt in E32. lia.
  - apply parse_chars_plain; assumption.
Qed.

Lemma surrogate_plain (c : N) :
  is_surrogate c = true ->
  (c =? 34) = false /\ (c =? 92) = false /\ (c <? 32) = false /\ c < 65536.
Proof.
  unfold is_surrogate. intros H. apply andb_true_iff in H as [H1 H2].
  apply N.leb_le in H1, H2.
  repeat split; try (apply N.eqb_neq; lia); try (apply N.ltb_ge; lia); lia.
Qed.

Lemma parse_chars_surrogate (c : N) (rest : jsstring) :
  is_surrogate c = true ->
  parse_chars (c :: rest) = cons_fst c (parse_chars rest).
Proof.
  intros H. destruct (surrogate_plain c H) as (H1 & H2 & H3 & _).
  apply parse_chars_plain; assumption.
Qed.

Lemma parse_chars_surrogate_escape (c : N) (rest : jsstring) :
  is_surrogate c = true ->
  parse_chars (unicode_escape c ++ rest) = cons_fst c (parse_chars rest).
Proof.
  intros H. destruct (surrogate_plain c H) as (_ & _ & _ & H4).
  apply parse_chars_unicode_escape, H4.
Qed.

(** The three ways [quote_chars] treats the head of a string. *)
Lemma quote_chars_pair (c d : N) (r : jsstring) :
  is_lead c = true -> is_trail d = true ->
  quote_chars (c :: d :: r) = c :: d :: quote_chars r.
Proof. intros Hc Hd. simpl. rewrite Hc, Hd. reflexivity. Qed.

Lemma quote_chars_lone_lead (c : N) (r : jsstring) :
  is_lead c = true ->
  match r with d :: _ => is_trail d = false | [] => True end ->
  quote_chars (c :: r) = unicode_escape c ++ quote_chars r.
Proof.
  intros Hc Hr. destruct r as [|d r'].
  - simpl. rewrite Hc. reflexivity.
  - change (quote_chars (c :: d :: r'))
      with (if is_lead c then
              if is_trail d then c :: d :: quote_chars r'
              else unicode_escape c ++ quote_chars (d :: r')
            else if is_trail c then unicode_escape c ++ quote_chars (d :: r')
            else escape_unit c ++ quote_chars (d :: r')).
    rewrite Hc, Hr. reflexivity.
Qed.

Lemma quote_chars_other (c : N) (r : jsstring) :
  is_lead c = false ->
  quote_chars (c :: r) =
  (if is_trail c then unicode_escape c else escape_unit c) ++ quote_chars r.
Proof.
  intros Hc.
  change (quote_chars (c :: r))
    with (if is_lead c then
            match r with
            | d :: r' =>
                if is_trail d then c :: d :: quote_chars r'
                else unicode_escape c ++ quote_chars r
            | [] => unicode_escape c
            end
          else if is_trail c then unicode_escape c ++ quote_chars r
          else escape_unit c ++ quote_chars r).
  rewrite Hc. destruct (is_trail c); reflexivity.
Qed.

(** The body of a quoted string, followed by the closing quote, reads back
    as the string.  A surrogate pair is consumed two units at a time, so
    the induction is on a bound of the length. *)
Lemma parse_chars_quote_chars_bounded (n : nat) :
  forall (s rest : jsstring),
    (length s <= n)%nat ->
    parse_chars (quote_chars s ++ 34 :: rest) = Some (s, rest).
Proof.
  induction n as [|n IH]; intros s rest Hlen.
  - destruct s; [reflexivity | simpl in Hlen; lia].
  - destruct s as [|c r]; [reflexivity|].
    simpl in Hlen.
    destruct (is_lead c) eqn:Elead.
    + pose proof (lead_surrogate c Elead) as Hc.
      assert (Hcase : (exists d r', r = d :: r' /\ is_trail d = true) \/
                      match r with d :: _ => is_trail d = false | [] => True end).
      { destruct r as [|d r']; [right; exact I|].
        destruct (is_trail d) eqn:Ed; [left; eauto | right; reflexivity]. }
      destruct Hcase as [(d & r' & -> & Etrail) | Hlone].
      * rewrite quote_chars_pair by assumption.
        change ((c :: d :: quote_chars r') ++ 34 :: rest)
          with (c :: d :: (quote_chars r' ++ 34 :: rest)).
        rewrite parse_chars_surrogate by exact Hc.
        rewrite parse_chars_surrogate by (apply trail_surrogate, Etrail).
        rewrite IH by (simpl in Hlen; lia). reflexivity.
      * rewrite quote_chars_lone_lead by assumption.
        rewrite <- app_assoc.
        rewrite parse_chars_surrogate_escape by exact Hc.
        rewrite IH by lia. reflexivity.
    + rewrite quote_chars_other by exact Elead.
      rewrite <- app_assoc.
      destruct (is_trail c) eqn:Etrail.
      * rewrite parse_chars_surrogate_escape by (apply trail_surrogate, Etrail).
        rewrite IH by lia. reflexivity.
      * rewrite parse_chars_escape_unit.
        rewrite IH by lia. reflexivity.
Qed.

Lemma parse_chars_quote_chars (s rest : jsstring) :
  parse_chars (quote_chars s ++ 34 :: rest) = Some (s, rest).
Proof. apply (parse_chars_quote_chars_bounded (length s)). reflexivity. Qed.

Lemma quote_app (s rest : jsstring) :
  quote s ++ rest = 34 :: quote_chars s ++ 34 :: rest.
Proof. unfold quote. simpl. rewrite <- app_assoc. reflexivity. Qed.

(** A quoted string is read back as a string value, with any fuel. *)
Lemma parse_value_quote (fuel : nat) (s rest : jsstring) :
  parse_value (S fuel) (quote s ++ rest) = Some (VString s, rest).
Proof.
  rewrite quote_app.
  change (parse_value (S fuel) (34 :: quote_chars s ++ 34 :: rest))
    with (match parse_chars (quote_chars s ++ 34 :: rest) with
          | Some (str, r') => Some (VString str, r')
          | None => None
          end).
  rewrite parse_chars_quote_chars. reflexivity.
Qed.

Lemma parse_members_unfold (fuel : nat) (r : jsstring) (acc : list (jsstring * value)) :
  parse_members (S fuel) (34 :: r) acc =
  match parse_chars r with
  | None => None
  | Some (k, r1) =>
      match skip_ws r1 with
      | colon :: r2 =>
          if colon =? 58 then
            match parse_value fuel (skip_ws r2) with
            | None => None
            | Some (v, r3) =>
                match skip_ws r3 with
                | c :: r4 =>
                    if c =? 44
                    then parse_members fuel (skip_ws r4) ((k, v) :: acc)
                    else if c =? 125
                    then Some (VObject (rev ((k, v) :: acc)), r4)
                    else None
                | [] => None
                end
            end
          else None
      | [] => None
      end
  end.
Proof. reflexivity. Qed.

Lemma stringify_members_app (k v : jsstring) (props : list (jsstring * jsstring))
  (tail : jsstring) :
  stringify_members ((k, v) :: props) ++ tail =
  34 :: quote_chars k ++ 34 :: 58 :: quote v ++
    match props with
    | [] => tail
    | _ :: _ => 44 :: stringify_members props ++ tail
    end.
Proof.
  destruct props as [|[k' v'] ps].
  - change (stringify_members [(k, v)]) with (quote k ++ 58 :: quote v).
    rewrite <- app_assoc, quote_app. reflexivity.
  - change (stringify_members ((k, v) :: (k', v') :: ps))
      with (quote k ++ 58 :: quote v ++ 44 :: stringify_members ((k', v') :: ps)).
    rewrite <- app_assoc, quote_app.
    change ((58 :: quote v ++ 44 :: stringify_members ((k', v') :: ps)) ++ tail)
      with (58 :: (quote v ++ 44 :: stringify_members ((k', v') :: ps)) ++ tail).
    rewrite <- app_assoc. reflexivity.
Qed.

Lemma skip_ws_quote (s rest : jsstring) : skip_ws (quote s ++ rest) = quote s ++ rest.
Proof. reflexivity. Qed.

Lemma skip_ws_members (p : jsstring * jsstring) (props : list (jsstring * jsstring))
  (tail : jsstring) :
  skip_ws (stringify_members (p :: props) ++ tail) = stringify_members (p :: props) ++ tail.
Proof. destruct p as [k v]. rewrite stringify_members_app. reflexivity. Qed.

(** Reading one member [k : v] written by [stringify_members]. *)
Lemma parse_members_step (fuel : nat) (k v tail : jsstring)
  (acc : list (jsstring * value)) :
  parse_members (S (S fuel)) (34 :: quote_chars k ++ 34 :: 58 :: quote v ++ tail) acc =
  match skip_ws tail with
  | c :: r4 =>
      if c =? 44
      then parse_members (S fuel) (skip_ws r4) ((k, VString v) :: acc)
      else if c =? 125
      then Some (VObject (rev ((k, VString v) :: acc)), r4)
      else None
  | [] => None
  end.
Proof.
  rewrite parse_members_unfold, parse_chars_quote_chars.
  change (skip_ws (58 :: ?x)) with (58 :: x). cbv iota beta.
  rewrite skip_ws_quote, parse_value_quote. reflexivity.
Qed.

(** The members written by [stringify_members], up to the closing brace,
    read back in order after whatever was read before them. *)
Lemma parse_members_stringify (props : list (jsstring * jsstring)) :
  forall (fuel : nat) (k v : jsstring) (acc : list (jsstring * value)) (rest : jsstring),
    (length props + 2 <= fuel)%nat ->
    parse_members fuel (stringify_members ((k, v) :: props) ++ 125 :: rest) acc =
    Some (VObject (rev acc ++ List.map string_prop ((k, v) :: props)), rest).
Proof.
  induction props as [|[k' v'] ps IH]; intros fuel k v acc rest Hfuel;
    (destruct fuel as [|[|fuel]]; [simpl in Hfuel; lia .. |]);
    rewrite stringify_members_app, parse_members_step.
  - reflexivity.
  - change (skip_ws (44 :: ?x)) with (44 :: x). cbv iota beta.
    change (44 =? 44) with true. cbv iota.
    rewrite skip_ws_members, IH by (simpl in Hfuel |- *; lia).
    simpl rev. rewrite <- app_assoc. reflexivity.
Qed.

Lemma stringify_members_length (props : list (jsstring * jsstring)) :
  forall tail : jsstring,
    (length props + length tail <= length (stringify_members props ++ tail))%nat.
Proof.
  induction props as [|[k v] ps IH]; intros tail; [simpl; lia|].
  rewrite stringify_members_app.
  destruct ps as [|p ps'].
  - cbn [length]. rewrite !length_app. cbn [length]. rewrite !length_app. lia.
  - specialize (IH tail).
    cbn [length]. rewrite !length_app. cbn [length]. rewrite !length_app.
    cbn [length] in IH |- *. lia.
Qed.

(** [JSON.parse(JSON.stringify(o))] for an object [o] whose properties hold
    strings: an object with the same properties in the same order. *)
Lemma parse_stringify_object (props : list (jsstring * jsstring)) :
  parse (stringify_object props) = Some (VObject (List.map string_prop props)).
Proof.
  unfold parse, stringify_object.
  change (skip_ws (123 :: ?x)) with (123 :: x).
  pose proof (stringify_members_length props [125]) as Hlen.
  destruct props as [|[k v] ps]; [reflexivity|].
  match goal with
  | |- context [parse_value ?f _] => remember f as fuel eqn:Efuel
  end.
  assert (Hfuel : (length ps + 3 <= fuel)%nat).
  { subst fuel. cbn [length] in Hlen |- *. lia. }
  clear Efuel Hlen.
  destruct fuel as [|fuel]; [lia|].
  change (parse_value (S fuel) (123 :: stringify_members ((k, v) :: ps) ++ [125]))
    with (match skip_ws (stringify_members ((k, v) :: ps) ++ [125]) with
          | c' :: r' =>
              if c' =? 125 then Some (VObject [], r')
              else parse_members fuel (c' :: r') []
          | [] => None
          end).
  rewrite skip_ws_members.
  rewrite stringify_members_app at 1.
  cbv iota beta.
  rewrite <- stringify_members_app.
  rewrite parse_members_stringify by lia.
  reflexivity.
Qed.

(** ** The parser never runs out of fuel *)

Lemma skip_ws_length (s : jsstring) : (length (skip_ws s) <= length s)%nat.
Proof.
  induction s as [|c r IH]; simpl; [lia|].
  destruct (is_ws c); simpl; lia.
Qed.

Lemma cons_fst_some {A : Type} (c : N) (o : option (jsstring * A))
  (k : jsstring) (r : A) :
  cons_fst c o = Some (k, r) -> exists k', o = Some (k', r) /\ k = c :: k'.
Proof.
  destruct o as [[k' r']|]; simpl; intros H; [|discriminate H].
  injection H as <- <-. eauto.
Qed.

(** A string body consumes at least its closing quote. *)
Lemma parse_chars_length (n : nat) :
  forall (s k r : jsstring),
    (length s <= n)%nat -> parse_chars s = Some (k, r) ->
    (length r < length s)%nat.
Proof.
  induction n as [|n IH]; intros s k r Hn H.
  - destruct s; [discriminate H | simpl in Hn; lia].
  - destruct s as [|c s']; [discriminate H|].
    simpl in Hn. simpl in H.
    destruct (c =? 34).
    { injection H as _ <-. simpl. lia. }
    destruct (c =? 92).
    { destruct s' as [|e r1]; [discriminate H|].
      destruct (e =? 117).
      - destruct r1 as [|h3 [|h2 [|h1 [|h0 r2]]]]; try discriminate H.
        destruct (hex4_value h3 h2 h1 h0); [|discriminate H].
        apply cons_fst_some in H as (k' & H & _).
        apply IH in H; simpl in *; lia.
      - destruct (simple_escape e); [|discriminate H].
        apply cons_fst_some in H as (k' & H & _).
        apply IH in H; simpl in *; lia. }
    destruct (c <? 32); [discriminate H|].
    apply cons_fst_some in H as (k' & H & _).
    apply IH in H; simpl in *; lia.
Qed.

Lemma span_digits_length (s ds r : jsstring) :
  span_digits s = (ds, r) -> (length r <= length s)%nat.
Proof.
  revert ds r. induction s as [|c s' IH]; intros ds r H; simpl in H.
  - injection H as _ <-. simpl. lia.
  - destruct (is_digit c).
    + destruct (span_digits s') as [ds' r'] eqn:E.
      injection H as _ <-. specialize (IH _ _ eq_refl). simpl. lia.
    + injection H as _ <-. lia.
Qed.

Lemma strip_prefix_length (p s r : jsstring) :
  strip_prefix p s = Some r -> (length r <= length s)%nat.
Proof.
  revert s r. induction p as [|x p IH]; intros s r H; simpl in H.
  - injection H as <-. lia.
  - destruct s as [|y s']; [discriminate H|].
    destruct (x =? y); [|discriminate H].
    apply IH in H. simpl. lia.
Qed.

Lemma parse_int_length (s i r : jsstring) :
  parse_int s = Some (i, r) -> (length r < length s)%nat.
Proof.
  destruct s as [|c s']; simpl; intros H; [discriminate H|].
  destruct (c =? 48); [injection H as _ <-; lia|].
  destruct (is_digit c); [|discriminate H].
  destruct (span_digits s') as [ds r'] eqn:E.
  injection H as _ <-. apply span_digits_length in E. lia.
Qed.

Lemma parse_frac_length (s f r : jsstring) :
  parse_frac s = Some (f, r) -> (length r <= length s)%nat.
Proof.
  destruct s as [|c s']; simpl; intros H; [injection H as _ <-; simpl; lia|].
  destruct (c =? 46).
  - destruct (span_digits s') as [[|d ds] r'] eqn:E; [discriminate H|].
    injection H as _ <-. apply span_digits_length in E. simpl. lia.
  - injection H as _ <-. simpl. lia.
Qed.

Lemma parse_exp_length (s e r : jsstring) :
  parse_exp s = Some (e, r) -> (length r <= length s)%nat.
Proof.
  destruct s as [|c s']; simpl; intros H; [injection H as _ <-; simpl; lia|].
  destruct ((c =? 101) || (c =? 69)).
  - destruct s' as [|d s''].
    + simpl in H. discriminate H.
    + destruct ((d =? 43) || (d =? 45)).
      * destruct (span_digits s'') as [[|x ds] r'] eqn:E; [discriminate H|].
        injection H as _ <-. apply span_digits_length in E. simpl. lia.
      * destruct (span_digits (d :: s'')) as [[|x ds] r'] eqn:E; [discriminate H|].
        injection H as _ <-. apply span_digits_length in E. simpl in *. lia.
  - injection H as _ <-. simpl. lia.
Qed.

Lemma parse_number_length (s lexeme r : jsstring) :
  parse_number s = Some (lexeme, r) -> (length r < length s)%nat.
Proof.
  unfold parse_number. intros H.
  assert (Hfrom : forall s0 : jsstring,
             (length s0 <= length s)%nat ->
             forall minus : jsstring,
             match parse_int s0 with
             | None => None
             | Some (i, s1) =>
                 match parse_frac s1 with
                 | None => None
                 | Some (f, s2) =>
                     match parse_exp s2 with
                     | None => None
                     | Some (e, s3) => Some (minus ++ i ++ f ++ e, s3)
                     end
                 end
             end = Some (lexeme, r) -> (length r < length s)%nat).
  { intros s0 H0 minus H1.
    destruct (parse_int s0) as [[i s1]|] eqn:Ei; [|discriminate H1].
    destruct (parse_frac s1) as [[f s2]|] eqn:Ef; [|discriminate H1].
    destruct (parse_exp s2) as [[e s3]|] eqn:Ee; [|discriminate H1].
    injection H1 as _ <-.
    apply parse_int_length in Ei. apply parse_frac_length in Ef.
    apply parse_exp_length in Ee. lia. }
  destruct s as [|c s'].
  - apply (Hfrom [] (le_n _) []), H.
  - destruct (c =? 45).
    + apply (Hfrom s' (Nat.le_succ_diag_r _) [c]), H.
    + apply (Hfrom (c :: s') (le_n _) []), H.
Qed.

Ltac skip_ws_bound r E :=
  let W := fresh "W" in
  pose proof (skip_ws_length r) as W; rewrite E in W; cbn [length] in W.

Lemma fuel_enough (f : nat) :
  enough parse_value f /\
  (forall acc, enough (fun f s => parse_elements f s acc) f) /\
  (forall acc, enough (fun f s => parse_members f s acc) f).
Proof.
  induction f as [|f (IHv & IHe & IHm)].
  { repeat split; intros; discriminate. }
  split; [|split].
  - (* a value *)
    intros s v r H. destruct s as [|c r0]; [discriminate H|].
    cbn [parse_value] in H. cbn [length].
    destruct (c =? 123) eqn:E123.
    { destruct (skip_ws r0) as [|c' r'] eqn:Ews; [discriminate H|].
      skip_ws_bound r0 Ews.
      destruct (c' =? 125) eqn:E125.
      - injection H as <- <-. split; [lia|]. intros [|g] Hg; [lia|].
        cbn [parse_value]. rewrite E123, Ews, E125. reflexivity.
      - apply IHm in H as [Hlen Hmore]. cbn [length] in Hlen, Hmore.
        split; [lia|]. intros [|g] Hg; [lia|].
        cbn [parse_value]. rewrite E123, Ews, E125. apply Hmore. lia. }
    destruct (c =? 91) eqn:E91.
    { destruct (skip_ws r0) as [|c' r'] eqn:Ews; [discriminate H|].
      skip_ws_bound r0 Ews.
      destruct (c' =? 93) eqn:E93.
      - injection H as <- <-. split; [lia|]. intros [|g] Hg; [lia|].
        cbn [parse_value]. rewrite E123, E91, Ews, E93. reflexivity.
      - apply IHe in H as [Hlen Hmore]. cbn [length] in Hlen, Hmore.
        split; [lia|]. intros [|g] Hg; [lia|].
        cbn [parse_value]. rewrite E123, E91, Ews, E93. apply Hmore. lia. }
    assert (Hflat : (length r < S (length r0))%nat ->
               (length r < S (length r0))%nat /\
               forall f' : nat,
                 (2 * (S (length r0) - length r) <= f')%nat ->
                 parse_value f' (c :: r0) = Some (v, r)).
    { intros Hlen. split; [exact Hlen|]. intros [|g] Hg; [lia|].
      cbn [parse_value]. rewrite E123, E91. exact H. }
    apply Hflat.
    destruct (c =? 34).
    { destruct (parse_chars r0) as [[str r']|] eqn:Es; [|discriminate H].
      injection H as _ <-.
      pose proof (parse_chars_length _ _ _ _ (le_n _) Es). lia. }
    destruct (c =? 116).
    { destruct (strip_prefix (lit "rue") r0) as [r'|] eqn:Es; [|discriminate H].
      injection H as _ <-. apply strip_prefix_length in Es. lia. }
    destruct (c =? 102).
    { destruct (strip_prefix (lit "alse") r0) as [r'|] eqn:Es; [|discriminate H].
      injection H as _ <-. apply strip_prefix_length in Es. lia. }
    destruct (c =? 110).
    { destruct (strip_prefix (lit "ull") r0) as [r'|] eqn:Es; [|discriminate H].
      injection H as _ <-. apply strip_prefix_length in Es. lia. }
    destruct (parse_number (c :: r0)) as [[lexeme r']|] eqn:Es; [|discriminate H].
    injection H as _ <-. apply parse_number_length in Es. cbn [length] in Es. lia.
  - (* the elements of an array *)
    intros acc s v r H. cbn beta in H. cbn [parse_elements] in H.
    destruct (parse_value f s) as [[v1 r1]|] eqn:Ev; [|discriminate H].
    apply IHv in Ev as [Hlen1 Hmore1].
    destruct (skip_ws r1) as [|c r'] eqn:Ews; [discriminate H|].
    skip_ws_bound r1 Ews.
    destruct (c =? 44) eqn:E44.
    + apply (IHe (v1 :: acc)) in H as [Hlen2 Hmore2].
      pose proof (skip_ws_length r') as W'.
      split; [lia|]. intros [|g] Hg; [lia|].
      cbn [parse_elements]. rewrite (Hmore1 g) by lia. rewrite Ews, E44.
      apply Hmore2. lia.
    + destruct (c =? 93) eqn:E93; [|discriminate H].
      injection H as <- <-. split; [lia|]. intros [|g] Hg; [lia|].
      cbn [parse_elements]. rewrite (Hmore1 g) by lia. rewrite Ews, E44, E93.
      reflexivity.
  - (* the members of an object *)
    intros acc s v r H. cbn beta in H.
    destruct s as [|q r0]; [discriminate H|].
    cbn [parse_members] in H. cbn [length].
    destruct (q =? 34) eqn:Eq; [|discriminate H].
    destruct (parse_chars r0) as [[k r1]|] eqn:Ek; [|discriminate H].
    pose proof (parse_chars_length _ _ _ _ (le_n _) Ek) as Hk.
    destruct (skip_ws r1) as [|colon r2] eqn:Ews1; [discriminate H|].
    skip_ws_bound r1 Ews1.
    destruct (colon =? 58) eqn:Ecolon; [|discriminate H].
    destruct (parse_value f (skip_ws r2)) as [[v1 r3]|] eqn:Ev; [|discriminate H].
    apply IHv in Ev as [Hlen1 Hmore1].
    pose proof (skip_ws_length r2) as W2.
    destruct (skip_ws r3) as [|c r4] eqn:Ews3; [discriminate H|].
    skip_ws_bound r3 Ews3.
    destruct (c =? 44) eqn:E44.
    + apply (IHm ((k, v1) :: acc)) in H as [Hlen2 Hmore2].
      pose proof (skip_ws_length r4) as W4.
      split; [lia|]. intros [|g] Hg; [lia|].
      cbn [parse_members]. rewrite Eq, Ek, Ews1, Ecolon.
      rewrite (Hmore1 g) by lia. rewrite Ews3, E44. apply Hmore2. lia.
    + destruct (c =? 125) eqn:E125; [|discriminate H].
      injection H as <- <-. split; [lia|]. intros [|g] Hg; [lia|].
      cbn [parse_members]. rewrite Eq, Ek, Ews1, Ecolon.
      rewrite (Hmore1 g) by lia. rewrite Ews3, E44, E125. reflexivity.
Qed.

(** The fuel [parse] gives is enough: more fuel never changes the result. *)
Theorem parse_fuel_enough (text : jsstring) (f : nat) :
  (2 * length text + 2 <= f)%nat ->
  match parse_value f (skip_ws text) with
  | Some (v, r) =>
      match skip_ws r with
      | [] => Some v
      | _ :: _ => None
      end
  | None => None
  end = parse text.
Proof.
  intros Hf. unfold parse.
  pose proof (skip_ws_length text) as Hws.
  destruct (parse_value (2 * length text + 2) (skip_ws text)) as [[v r]|] eqn:E.
  - apply (proj1 (fuel_enough _)) in E as [_ Hmore].
    rewrite (Hmore f) by lia. reflexivity.
  - destruct (parse_value f (skip_ws text)) as [[v r]|] eqn:E'; [|reflexivity].
    apply (proj1 (fuel_enough _)) in E' as [_ Hmore].
    rewrite (Hmore (2 * length text + 2)%nat) in E by lia. discriminate E.
Qed.

(** More fuel: the same result, on a nested array. *)
Lemma parse_fuel_enough_witness :
  match parse_value 100 (skip_ws (lit " [[1, 2], []] ")) with
  | Some (v, r) =>
      match skip_ws r with
      | [] => Some v
      | _ :: _ => None
      end
  | None => None
  end = parse (lit " [[1, 2], []] ").
Proof. apply (parse_fuel_enough (lit " [[1, 2], []] ") 100). vm_compute. lia. Defined.

(** ** The stored user record *)

Lemma keys_distinct : USER_KEY <> SESSION_KEY.
Proof. intros H. vm_compute in H. discriminate H. Qed.

(** What [JSON.parse] makes of the record [signUp] wrote. *)
Lemma parse_stringify_user (u : UserData) :
  parse (stringify_user u) =
  Some (VObject [(lit "name", VString (name u)); (lit "salt", VString (salt u));
                 (lit "hash", VString (hash u))]).
Proof. unfold stringify_user. rewrite parse_stringify_object. reflexivity. Qed.

(** The stored text is never empty, so it is truthy. *)
Lemma stringify_user_cons (u : UserData) :
  exists r, stringify_user u = 123 :: r.
Proof. unfold stringify_user, stringify_object. eauto. Qed.

Lemma truthy_stringify_user (u : UserData) : truthy (Some (stringify_user u)) = true.
Proof. destruct (stringify_user_cons u) as [r ->]. reflexivity. Qed.

Lemma truthy_false (v : option jsstring) :
  truthy v = false <-> v = None \/ v = Some [].
Proof.
  destruct v as [[|c r]|]; simpl; split; intros H; auto; try discriminate.
  destruct H as [H|H]; discriminate H.
Qed.

(** ** The calls, as equations on the storage *)

Lemma doesAccountExist_eq (ls : Storage) :
  doesAccountExist ls = (Returns (truthy (ls !! USER_KEY)), ls).
Proof. reflexivity. Qed.

Lemma doesAccountExist_false (ls : Storage) :
  doesAccountExist ls = (Returns false, ls) <-> truthy (ls !! USER_KEY) = false.
Proof.
  rewrite doesAccountExist_eq. split; [intros H; congruence | intros ->; reflexivity].
Qed.

Lemma doesAccountExist_true (ls : Storage) :
  doesAccountExist ls = (Returns true, ls) <-> truthy (ls !! USER_KEY) = true.
Proof.
  rewrite doesAccountExist_eq. split; [intros H; congruence | intros ->; reflexivity].
Qed.

Lemma checkAuth_eq (ls : Storage) :
  checkAuth ls =
  (Returns match ls !! SESSION_KEY with
           | Some s => str_eqb s (lit "true")
           | None => false
           end, ls).
Proof. reflexivity. Qed.

Lemma logout_eq (ls : Storage) : logout ls = (Returns tt, delete SESSION_KEY ls).
Proof. reflexivity. Qed.

Lemma signUp_eq (uuid name pass : jsstring) (ls : Storage) :
  signUp uuid name pass ls =
  if truthy (ls !! USER_KEY) then (Returns false, ls)
  else (Returns true,
        <[SESSION_KEY := lit "true"]>
          (<[USER_KEY := stringify_user {| name := name; salt := uuid;
                                           hash := hashPassword pass uuid |}]> ls)).
Proof.
  unfold signUp, bind, getItem, setItem, ret.
  destruct (truthy (ls !! USER_KEY)); reflexivity.
Qed.

Lemma getAuthenticatedUser_eq (ls : Storage) :
  getAuthenticatedUser ls = (user_of_text (ls !! USER_KEY), ls).
Proof.
  unfold getAuthenticatedUser, bind, getItem, JSON_parse, get, ret, throw, user_of_text.
  destruct (ls !! USER_KEY) as [[|c r]|]; try reflexivity.
  destruct (parse (c :: r)) as [[]|]; reflexivity.
Qed.

Section LoginEquations.

Variable number_to_string : jsstring -> jsstring.

Lemma login_eq (pass : jsstring) (ls : Storage) :
  login number_to_string pass ls =
  (login_result number_to_string pass (ls !! USER_KEY),
   match login_result number_to_string pass (ls !! USER_KEY) with
   | Returns true => <[SESSION_KEY := lit "true"]> ls
   | _ => ls
   end).
Proof.
  unfold login, bind, getItem, JSON_parse, get, ret, throw, setItem, login_result.
  destruct (ls !! USER_KEY) as [[|c r]|]; try reflexivity.
  destruct (parse (c :: r)) as [[| |b|lexeme|s|elems|props]|]; try reflexivity.
  destruct (strict_equal _ _); reflexivity.
Qed.

(** On a record written by [signUp] the result is the comparison of the
    recomputed hash with the stored one. *)
Lemma login_result_stored (pass : jsstring) (u : UserData) :
  login_result number_to_string pass (Some (stringify_user u)) =
  Returns (str_eqb (hashPassword pass (salt u)) (hash u)).
Proof.
  unfold login_result.
  destruct (stringify_user_cons u) as [r Hr]. rewrite Hr, <- Hr.
  rewrite parse_stringify_user. reflexivity.
Qed.

End LoginEquations.

Lemma user_of_text_stored (u : UserData) :
  user_of_text (Some (stringify_user u)) =
  Returns (Some {| user_name := VString (name u) |}).
Proof.
  unfold user_of_text.
  destruct (stringify_user_cons u) as [r Hr]. rewrite Hr, <- Hr.
  rewrite parse_stringify_user. reflexivity.
Qed.

(** What a successful [signUp] leaves under the two keys. *)
Lemma signUp_success (uuid name pass : jsstring) (ls0 ls : Storage) :
  signUp uuid name pass ls0 = (Returns true, ls) ->
  truthy (ls0 !! USER_KEY) = false /\
  ls = <[SESSION_KEY := lit "true"]>
         (<[USER_KEY := stringify_user {| name := name; salt := uuid;
                                          hash := hashPassword pass uuid |}]> ls0) /\
  ls !! USER_KEY =
    Some (stringify_user {| name := name; salt := uuid;
                            hash := hashPassword pass uuid |}) /\
  ls !! SESSION_KEY = Some (lit "true").
Proof.
  intros H. rewrite signUp_eq in H.
  destruct (truthy (ls0 !! USER_KEY)) eqn:E0; [discriminate H|].
  injection H as <-. repeat split.
  - rewrite lookup_insert_ne by (apply not_eq_sym, keys_distinct).
    apply lookup_insert_eq.
  - apply lookup_insert_eq.
Qed.

(* ===================================================================== *)
(** * The claims *)
(* ===================================================================== *)

Section Login.

Variable number_to_string : jsstring -> jsstring.

(** C1. [login]: with no user record stored (the item is absent, or
    empty) it returns [false] and leaves the storage as it was.  With the
    record [{ name, salt, hash }] stored, it returns [true] and writes
    ["true"] under the session key exactly when the hash of the password
    with the stored salt, that is the hex form of the digest of
    [password + salt], equals the stored hash; and exactly when the two
    differ it returns [false] and leaves the whole storage, the session
    flag included, as it was. *)
Theorem login_spec (pass : jsstring) (ls : Storage) :
  (doesAccountExist ls = (Returns false, ls) ->
   login number_to_string pass ls = (Returns false, ls)) /\
  (forall u : UserData,
      ls !! USER_KEY = Some (stringify_user u) ->
      let inputHash := hex_of_bytes (Sha256.digest (encode (pass ++ salt u))) in
      (login number_to_string pass ls =
         (Returns true, <[SESSION_KEY := lit "true"]> ls) <->
       inputHash = hash u) /\
      (login number_to_string pass ls = (Returns false, ls) <->
       inputHash <> hash u)).
Proof.
  split.
  - intros H. apply doesAccountExist_false, truthy_false in H.
    rewrite login_eq. destruct H as [-> | ->]; reflexivity.
  - intros u Hu inputHash. rewrite login_eq, Hu, login_result_stored.
    change (hashPassword pass (salt u)) with inputHash.
    rewrite <- str_eqb_neq, <- str_eqb_eq.
    destruct (str_eqb inputHash (hash u)); split; split; congruence.
Qed.

End Login.

(** C1 at the sample store: the right password logs in. *)
Lemma login_spec_witness :
  login (fun lexeme => lexeme) sample_password sample_store =
  (Returns true, <[SESSION_KEY := lit "true"]> sample_store).
Proof.
  refine (proj2 (proj1 (proj2 (login_spec (fun lexeme => lexeme)
                                 sample_password sample_store)
                          sample_user _)) _).
  - vm_compute. reflexivity.
  - reflexivity.
Defined.

(** C2. [signUp] on a storage without an account: it returns [true]; the
    storage afterwards is the old one with the record
    [{ name, salt, hash }] under the user key, where [salt] is the value
    drawn from [crypto.randomUUID] in this call and [hash] is the hex form
    of the digest of [password + salt], and with ["true"] under the session
    key.  The record reads back as written, and both [checkAuth] and
    [doesAccountExist] then return [true]. *)
Theorem signUp_spec (uuid name pass : jsstring) (ls : Storage) :
  doesAccountExist ls = (Returns false, ls) ->
  let userData :=
    {| name := name; salt := uuid;
       hash := hex_of_bytes (Sha256.digest (encode (pass ++ uuid))) |} in
  let ls' :=
    <[SESSION_KEY := lit "true"]> (<[USER_KEY := stringify_user userData]> ls) in
  signUp uuid name pass ls = (Returns true, ls') /\
  ls' !! USER_KEY = Some (stringify_user userData) /\
  ls' !! SESSION_KEY = Some (lit "true") /\
  parse (stringify_user userData) =
    Some (VObject [(lit "name", VString name); (lit "salt", VString uuid);
                   (lit "hash", VString (hash userData))]) /\
  checkAuth ls' = (Returns true, ls') /\
  doesAccountExist ls' = (Returns true, ls').
Proof.
  intros H userData ls'. apply doesAccountExist_false in H.
  assert (Huser : ls' !! USER_KEY = Some (stringify_user userData)).
  { subst ls'. rewrite lookup_insert_ne by (apply not_eq_sym, keys_distinct).
    apply lookup_insert_eq. }
  assert (Hsession : ls' !! SESSION_KEY = Some (lit "true")).
  { subst ls'. apply lookup_insert_eq. }
  repeat split.
  - rewrite signUp_eq, H. reflexivity.
  - exact Huser.
  - exact Hsession.
  - apply parse_stringify_user.
  - rewrite checkAuth_eq, Hsession. reflexivity.
  - rewrite doesAccountExist_eq, Huser, truthy_stringify_user. reflexivity.
Qed.

(** C2 on the empty storage. *)
Lemma signUp_spec_witness :
  signUp sample_uuid sample_name sample_password ∅ = (Returns true, sample_store).
Proof.
  apply (signUp_spec sample_uuid sample_name sample_password ∅). reflexivity.
Defined.

(** C3. [signUp] on a storage that holds an account returns [false] and
    leaves the storage, hence the stored record, as it was.  In particular
    this is so for the storage any successful [signUp] leaves behind. *)
Theorem signUp_existing (uuid name pass : jsstring) (ls : Storage) :
  (doesAccountExist ls = (Returns true, ls) ->
   signUp uuid name pass ls = (Returns false, ls)) /\
  (forall (uuid0 name0 pass0 : jsstring) (ls0 : Storage),
      signUp uuid0 name0 pass0 ls0 = (Returns true, ls) ->
      signUp uuid name pass ls = (Returns false, ls) /\
      ls !! USER_KEY =
        Some (stringify_user {| name := name0; salt := uuid0;
                                hash := hashPassword pass0 uuid0 |})).
Proof.
  split.
  - intros H. apply doesAccountExist_true in H. rewrite signUp_eq, H. reflexivity.
  - intros uuid0 name0 pass0 ls0 H0.
    destruct (signUp_success _ _ _ _ _ H0) as (_ & _ & Huser & _).
    split; [|exact Huser].
    rewrite signUp_eq, Huser, truthy_stringify_user. reflexivity.
Qed.

(** C3 at the sample store: a second sign-up is refused. *)
Lemma signUp_existing_witness :
  signUp (lit "00000000-0000-4000-8000-000000000000") (lit "Ravi") (lit "hunter22")
         sample_store = (Returns false, sample_store).
Proof.
  apply (proj2 (signUp_existing (lit "00000000-0000-4000-8000-000000000000")
                  (lit "Ravi") (lit "hunter22") sample_store)
           sample_uuid sample_name sample_password ∅).
  reflexivity.
Defined.

(** C5. [logout] removes the session item and nothing else: afterwards
    [checkAuth] returns [false], [doesAccountExist] returns what it returned
    before, the user record is the same, and so is every other item. *)
Theorem logout_spec (ls : Storage) :
  let ls' := delete SESSION_KEY ls in
  logout ls = (Returns tt, ls') /\
  checkAuth ls' = (Returns false, ls') /\
  fst (doesAccountExist ls') = fst (doesAccountExist ls) /\
  ls' !! USER_KEY = ls !! USER_KEY /\
  (forall key : jsstring, key <> SESSION_KEY -> ls' !! key = ls !! key).
Proof.
  intros ls'.
  assert (Hother : forall key : jsstring,
             key <> SESSION_KEY -> ls' !! key = ls !! key).
  { intros key Hkey. subst ls'. apply lookup_delete_ne. congruence. }
  repeat split.
  - rewrite checkAuth_eq. subst ls'. rewrite lookup_delete_eq. reflexivity.
  - rewrite !doesAccountExist_eq, (Hother USER_KEY keys_distinct). reflexivity.
  - apply Hother, keys_distinct.
  - exact Hother.
Qed.

(** C6. [checkAuth] returns [true] exactly when the item under the session
    key is the string ["true"]; with no item, or any other string, it
    returns [false].  It never changes the storage. *)
Theorem checkAuth_spec (ls : Storage) :
  exists b : bool,
    checkAuth ls = (Returns b, ls) /\
    (b = true <-> ls !! SESSION_KEY = Some (lit "true")) /\
    (b = false <-> ls !! SESSION_KEY <> Some (lit "true")).
Proof.
  rewrite checkAuth_eq.
  destruct (ls !! SESSION_KEY) as [s|].
  - exists (str_eqb s (lit "true")). split; [reflexivity|].
    rewrite str_eqb_eq, str_eqb_neq. split; split; congruence.
  - exists false. split; [reflexivity|]. split; split; congruence.
Qed.

(** C7. The start-up check on a storage without an account: whatever the
    session item holds, [isAuthenticated] is left as it was, so it stays
    [false] from the initial state; [hasAccount] becomes [false]; the
    screen then shown is the sign-up form.  [checkAuth] is not consulted:
    the result is the same for every value of the session item.  The
    storage is left as it was. *)
Theorem checkUserStatus_no_account (app : App.AppState) (ls : Storage) :
  doesAccountExist ls = (Returns false, ls) ->
  exists app' : App.AppState,
    App.checkUserStatus app ls = (Returns app', ls) /\
    App.isAuthenticated app' = App.isAuthenticated app /\
    App.hasAccount app' = false /\
    App.isLoadingAuth app' = false /\
    (App.isAuthenticated app = false -> App.render app' = App.SignUpScreen) /\
    (forall session : jsstring,
        fst (App.checkUserStatus app (<[SESSION_KEY := session]> ls)) =
        Returns app').
Proof.
  intros H. apply doesAccountExist_false in H.
  exists (App.setIsLoadingAuth false (App.setHasAccount false app)).
  assert (Hrun : forall ls0 : Storage,
             truthy (ls0 !! USER_KEY) = false ->
             App.checkUserStatus app ls0 =
             (Returns (App.setIsLoadingAuth false (App.setHasAccount false app)), ls0)).
  { intros ls0 H0. unfold App.checkUserStatus, bind.
    rewrite doesAccountExist_eq, H0. reflexivity. }
  split; [apply Hrun, H|].
  split; [reflexivity|]. split; [reflexivity|]. split; [reflexivity|].
  split.
  - intros Hauth. unfold App.render. cbn. rewrite Hauth. reflexivity.
  - intros session. rewrite Hrun; [reflexivity|].
    rewrite lookup_insert_ne by (apply not_eq_sym, keys_distinct). exact H.
Qed.

(** C7 from the initial state, with a stale session flag and no user
    record. *)
Lemma checkUserStatus_no_account_witness :
  exists app' : App.AppState,
    App.checkUserStatus App.initial {[ SESSION_KEY := lit "true" ]} =
      (Returns app', {[ SESSION_KEY := lit "true" ]}) /\
    App.isAuthenticated app' = false /\
    App.hasAccount app' = false /\
    App.render app' = App.SignUpScreen.
Proof.
  assert (Hno : doesAccountExist {[ SESSION_KEY := lit "true" ]} =
                (Returns false, {[ SESSION_KEY := lit "true" ]})) by reflexivity.
  destruct (checkUserStatus_no_account App.initial _ Hno)
    as (app' & Hrun & Hauth & Hacc & _ & Hscreen & _).
  exists app'. split; [exact Hrun|]. split; [exact Hauth|].
  split; [exact Hacc|]. apply Hscreen. reflexivity.
Defined.

(** C8. The hash string: the digest is 32 bytes, each written as its two
    nibbles in lowercase hexadecimal (so a byte below 16 gets a leading
    zero), 64 characters in all, each one of [0-9a-f]. *)
Theorem hashPassword_hex64 (password salt : jsstring) :
  length (Sha256.digest (encode (password ++ salt))) = 32%nat /\
  hashPassword password salt =
    flat_map (fun b => [hex_digit (b / 16); hex_digit (b mod 16)])
             (Sha256.digest (encode (password ++ salt))) /\
  length (hashPassword password salt) = 64%nat /\
  Forall (fun c => lower_hex c = true) (hashPassword password salt).
Proof.
  assert (Hnib : hashPassword password salt =
                 flat_map (fun b => [hex_digit (b / 16); hex_digit (b mod 16)])
                          (Sha256.digest (encode (password ++ salt)))).
  { unfold hashPassword. apply hex_of_bytes_nibbles, digest_bytes. }
  split; [apply digest_length|]. split; [exact Hnib|].
  rewrite Hnib. split.
  - rewrite nibbles_length, digest_length. reflexivity.
  - apply nibbles_lower_hex, digest_bytes.
Qed.

(** C10. [getAuthenticatedUser] never changes the storage; it returns
    [null] exactly when [doesAccountExist] returns [false]; on a stored
    record it returns [{ name }] with the stored name, which after a
    successful [signUp] is the name given to it; and its result depends on
    the item under the user key alone, so writing or removing the session
    item does not change it. *)
Theorem getAuthenticatedUser_spec (ls : Storage) :
  snd (getAuthenticatedUser ls) = ls /\
  (fst (getAuthenticatedUser ls) = Returns None <->
   doesAccountExist ls = (Returns false, ls)) /\
  (forall u : UserData,
      ls !! USER_KEY = Some (stringify_user u) ->
      getAuthenticatedUser ls =
      (Returns (Some {| user_name := VString (name u) |}), ls)) /\
  (forall (uuid name pass : jsstring) (ls0 : Storage),
      signUp uuid name pass ls0 = (Returns true, ls) ->
      getAuthenticatedUser ls = (Returns (Some {| user_name := VString name |}), ls)) /\
  (forall ls2 : Storage,
      ls2 !! USER_KEY = ls !! USER_KEY ->
      fst (getAuthenticatedUser ls2) = fst (getAuthenticatedUser ls)) /\
  (forall session : jsstring,
      fst (getAuthenticatedUser (<[SESSION_KEY := session]> ls)) =
      fst (getAuthenticatedUser ls)) /\
  fst (getAuthenticatedUser (delete SESSION_KEY ls)) = fst (getAuthenticatedUser ls).
Proof.
  assert (Hstored : forall u : UserData,
             ls !! USER_KEY = Some (stringify_user u) ->
             getAuthenticatedUser ls =
             (Returns (Some {| user_name := VString (name u) |}), ls)).
  { intros u Hu. rewrite getAuthenticatedUser_eq, Hu, user_of_text_stored.
    reflexivity. }
  assert (Hframe : forall ls2 : Storage,
             ls2 !! USER_KEY = ls !! USER_KEY ->
             fst (getAuthenticatedUser ls2) = fst (getAuthenticatedUser ls)).
  { intros ls2 H2. rewrite !getAuthenticatedUser_eq, H2. reflexivity. }
  split; [rewrite getAuthenticatedUser_eq; reflexivity|].
  split.
  { rewrite getAuthenticatedUser_eq, doesAccountExist_false, truthy_false.
    unfold user_of_text. simpl fst.
    destruct (ls !! USER_KEY) as [[|c r]|].
    - split; auto.
    - split.
      + destruct (parse (c :: r)) as [[]|]; discriminate.
      + intros [H|H]; discriminate H.
    - split; auto. }
  split; [exact Hstored|].
  split.
  { intros uuid name0 pass ls0 H0.
    destruct (signUp_success _ _ _ _ _ H0) as (_ & _ & Hu & _).
    apply (Hstored _ Hu). }
  split; [exact Hframe|].
  split.
  - intros session. apply Hframe.
    apply lookup_insert_ne, not_eq_sym, keys_distinct.
  - apply Hframe. apply lookup_delete_ne, not_eq_sym, keys_distinct.
Qed.

(** ** Further properties *)

Section LoginAfterSignUp.

Variable number_to_string : jsstring -> jsstring.

(** After a successful [signUp], what [login] returns for any password. *)
Lemma login_known (uuid name pass other : jsstring) (ls0 ls : Storage) :
  signUp uuid name pass ls0 = (Returns true, ls) ->
  login number_to_string other ls =
  (Returns (str_eqb (hashPassword other uuid) (hashPassword pass uuid)), ls).
Proof.
  intros H. destruct (signUp_success _ _ _ _ _ H) as (_ & _ & Huser & Hsession).
  rewrite login_eq, Huser, login_result_stored. cbn [salt hash].
  destruct (str_eqb _ _); [|reflexivity].
  rewrite (insert_id _ _ _ Hsession). reflexivity.
Qed.

(** X1. After a successful [signUp], [login] with the same password
    returns [true], and the storage (session flag already ["true"]) is as
    before. *)
Theorem login_after_signUp (uuid name pass : jsstring) (ls0 ls : Storage) :
  signUp uuid name pass ls0 = (Returns true, ls) ->
  login number_to_string pass ls = (Returns true, ls).
Proof.
  intros H. rewrite (login_known _ _ _ pass _ _ H), str_eqb_refl. reflexivity.
Qed.

(** X2. After a successful [signUp], [login] with any other password
    [other] returns [false] exactly when the two hash strings differ, and
    [true] exactly when they coincide; either way the storage is as
    before. *)
Theorem login_other_password (uuid name pass other : jsstring) (ls0 ls : Storage) :
  signUp uuid name pass ls0 = (Returns true, ls) ->
  (login number_to_string other ls = (Returns false, ls) <->
   hashPassword other uuid <> hashPassword pass uuid) /\
  (login number_to_string other ls = (Returns true, ls) <->
   hashPassword other uuid = hashPassword pass uuid).
Proof.
  intros H. rewrite (login_known _ _ _ other _ _ H).
  rewrite <- str_eqb_neq, <- str_eqb_eq.
  destruct (str_eqb (hashPassword other uuid) (hashPassword pass uuid));
    split; split; congruence.
Qed.

(** X3. The second half of the first testable property, as far as it
    goes: after a successful [signUp] with [pass], the bytes hashed for
    [pass + "x"] differ from the bytes hashed for [pass], and [login] with
    [pass + "x"] returns [false] exactly when SHA-256 tells these two
    messages apart (it returns [true] exactly on a collision). *)
Theorem login_extended_password (uuid name pass : jsstring) (ls0 ls : Storage) :
  signUp uuid name pass ls0 = (Returns true, ls) ->
  encode ((pass ++ lit "x") ++ uuid) <> encode (pass ++ uuid) /\
  (login number_to_string (pass ++ lit "x") ls = (Returns false, ls) <->
   Sha256.digest (encode ((pass ++ lit "x") ++ uuid)) <>
   Sha256.digest (encode (pass ++ uuid))) /\
  (login number_to_string (pass ++ lit "x") ls = (Returns true, ls) <->
   Sha256.digest (encode ((pass ++ lit "x") ++ uuid)) =
   Sha256.digest (encode (pass ++ uuid))).
Proof.
  intros H. split; [apply extended_password_bytes|].
  rewrite (login_known _ _ _ (pass ++ lit "x") _ _ H).
  rewrite <- hashPassword_eq_digest, <- str_eqb_neq, <- str_eqb_eq.
  destruct (str_eqb _ _); split; split; congruence.
Qed.

End LoginAfterSignUp.

(** The three properties at the sample run. *)
Lemma login_after_signUp_witness :
  login (fun lexeme => lexeme) sample_password sample_store =
  (Returns true, sample_store).
Proof.
  apply (login_after_signUp (fun lexeme => lexeme)
           sample_uuid sample_name sample_password ∅ sample_store).
  reflexivity.
Defined.

Lemma login_other_password_witness :
  login (fun lexeme => lexeme) (lit "wrong") sample_store =
  (Returns false, sample_store).
Proof.
  refine (proj2 (proj1 (login_other_password (fun lexeme => lexeme)
                          sample_uuid sample_name sample_password
                          (lit "wrong") ∅ sample_store _)) _).
  - reflexivity.
  - vm_compute. discriminate.
Defined.

Lemma login_extended_password_witness :
  login (fun lexeme => lexeme) (sample_password ++ lit "x") sample_store =
  (Returns false, sample_store).
Proof.
  refine (proj2 (proj1 (proj2 (login_extended_password (fun lexeme => lexeme)
                                 sample_uuid sample_name sample_password
                                 ∅ sample_store _))) _).
  - reflexivity.
  - vm_compute. discriminate.
Defined.

(** X5. The scenario of the specification: create the account of Priya with
    password [secret1]; the account exists and the session is
    authenticated; after [logout] it is not; a wrong password is refused
    and changes nothing; the right password is accepted. *)
Example scenario :
  let nts := fun lexeme : jsstring => lexeme in
  let s1 := snd (signUp sample_uuid sample_name sample_password ∅) in
  let s2 := snd (logout s1) in
  let s3 := snd (login nts (lit "wrong") s2) in
  let s4 := snd (login nts (lit "secret1") s3) in
  fst (doesAccountExist ∅) = Returns false /\
  fst (signUp sample_uuid sample_name sample_password ∅) = Returns true /\
  fst (doesAccountExist s1) = Returns true /\
  fst (checkAuth s1) = Returns true /\
  fst (checkAuth s2) = Returns false /\
  fst (doesAccountExist s2) = Returns true /\
  fst (login nts (lit "wrong") s2) = Returns false /\
  s3 = s2 /\
  fst (checkAuth s3) = Returns false /\
  fst (login nts (lit "secret1") s3) = Returns true /\
  fst (checkAuth s4) = Returns true /\
  fst (getAuthenticatedUser s4) = Returns (Some {| user_name := VString (lit "Priya") |}).
Proof.
  cbv zeta.
  repeat match goal with |- _ /\ _ => split end; vm_compute; reflexivity.
Qed.

(** [JSON.parse] inverts [JSON.stringify] on every object whose properties
    hold strings, whatever code units the names and the strings contain
    (quotes, backslashes, control characters, lone surrogates). *)
Theorem json_roundtrip (props : list (jsstring * jsstring)) :
  parse (stringify_object props) =
  Some (VObject (List.map (fun kv => (fst kv, VString (snd kv))) props)).
Proof. apply parse_stringify_object. Qed.

(** X4. Two sign-ups with one password on two storages without an
    account: each stores the salt it drew and the hash of the password with that
    salt.  The two stored hashes are equal exactly when the two digests
    are; and when the two salts are different ASCII strings (as two
    different UUIDs are), the two messages digested are different. *)
Theorem signUp_twice_hashes (uuid1 uuid2 name1 name2 pass : jsstring)
  (ls1 ls2 ls1' ls2' : Storage) :
  signUp uuid1 name1 pass ls1 = (Returns true, ls1') ->
  signUp uuid2 name2 pass ls2 = (Returns true, ls2') ->
  exists u1 u2 : UserData,
    ls1' !! USER_KEY = Some (stringify_user u1) /\
    ls2' !! USER_KEY = Some (stringify_user u2) /\
    salt u1 = uuid1 /\ salt u2 = uuid2 /\
    hash u1 = hashPassword pass uuid1 /\ hash u2 = hashPassword pass uuid2 /\
    (hash u1 = hash u2 <->
     Sha256.digest (encode (pass ++ uuid1)) = Sha256.digest (encode (pass ++ uuid2))) /\
    (Forall (fun c => c < 128) uuid1 -> Forall (fun c => c < 128) uuid2 ->
     uuid1 <> uuid2 -> encode (pass ++ uuid1) <> encode (pass ++ uuid2)).
Proof.
  intros H1 H2.
  destruct (signUp_success _ _ _ _ _ H1) as (_ & _ & Hu1 & _).
  destruct (signUp_success _ _ _ _ _ H2) as (_ & _ & Hu2 & _).
  exists {| name := name1; salt := uuid1; hash := hashPassword pass uuid1 |},
         {| name := name2; salt := uuid2; hash := hashPassword pass uuid2 |}.
  cbn [salt hash].
  repeat match goal with |- _ /\ _ => split end;
    try assumption; try reflexivity.
  - apply hashPassword_eq_digest.
  - apply distinct_salts_bytes.
Qed.

(** Two sample runs: different salts, different hashes. *)
Lemma signUp_twice_hashes_witness :
  exists u1 u2 : UserData,
    sample_store !! USER_KEY = Some (stringify_user u1) /\
    snd (signUp sample_uuid2 (lit "Ravi") sample_password ∅) !! USER_KEY =
      Some (stringify_user u2) /\
    salt u1 = sample_uuid /\ salt u2 = sample_uuid2 /\
    hash u1 = hashPassword sample_password sample_uuid /\
    hash u2 = hashPassword sample_password sample_uuid2 /\
    (hash u1 = hash u2 <->
     Sha256.digest (encode (sample_password ++ sample_uuid)) =
     Sha256.digest (encode (sample_password ++ sample_uuid2))) /\
    (Forall (fun c => c < 128) sample_uuid -> Forall (fun c => c < 128) sample_uuid2 ->
     sample_uuid <> sample_uuid2 ->
     encode (sample_password ++ sample_uuid) <> encode (sample_password ++ sample_uuid2)).
Proof.
  apply (signUp_twice_hashes sample_uuid sample_uuid2
           sample_name (lit "Ravi") sample_password ∅ ∅); reflexivity.
Defined.

Example sample_salts_differ :
  hashPassword sample_password sample_uuid <>
  hashPassword sample_password sample_uuid2.
Proof. vm_compute. discriminate. Qed.

(** X6. The start-up check in full: the sign-up form when there is no account,
    the application when there is one and the session item is ["true"],
    the login form when there is one and the session item is anything
    else or absent.  The storage is left as it was. *)
Theorem startup_screen (ls : Storage) :
  exists app' : App.AppState,
    App.checkUserStatus App.initial ls = (Returns app', ls) /\
    App.render app' =
    if truthy (ls !! USER_KEY) then
      if bool_decide (ls !! SESSION_KEY = Some (lit "true"))
      then App.Application else App.LoginScreen
    else App.SignUpScreen.
Proof.
  unfold App.checkUserStatus, bind. rewrite doesAccountExist_eq.
  destruct (truthy (ls !! USER_KEY)).
  - rewrite checkAuth_eq.
    destruct (ls !! SESSION_KEY) as [s|].
    + destruct (str_eqb s (lit "true")) eqn:E.
      * apply str_eqb_eq in E. subst s.
        rewrite bool_decide_eq_true_2 by reflexivity. eexists. split; reflexivity.
      * apply str_eqb_neq in E.
        rewrite bool_decide_eq_false_2 by congruence. eexists. split; reflexivity.
    + rewrite bool_decide_eq_false_2 by discriminate. eexists. split; reflexivity.
  - eexists. split; reflexivity.
Qed.

Section AppFlow.

Variable number_to_string : jsstring -> jsstring.

(** X7. The session state machine, at the level of [App]: from a storage
    without an account the start-up check shows the sign-up form; a
    sign-up opens the application; logging out shows the login form;
    logging in with the password given at sign-up opens the application
    again, with the storage as it was after the sign-up. *)
Theorem app_flow (uuid name pass : jsstring) (ls0 : Storage) :
  doesAccountExist ls0 = (Returns false, ls0) ->
  exists (app0 app1 app2 app3 : App.AppState) (ls1 ls2 : Storage),
    App.checkUserStatus App.initial ls0 = (Returns app0, ls0) /\
    App.render app0 = App.SignUpScreen /\
    App.handleSignUp uuid name pass app0 ls0 = (Returns (true, app1), ls1) /\
    App.render app1 = App.Application /\
    App.handleLogout app1 ls1 = (Returns app2, ls2) /\
    App.render app2 = App.LoginScreen /\
    checkAuth ls2 = (Returns false, ls2) /\
    App.handleLogin number_to_string pass app2 ls2 = (Returns (true, app3), ls1) /\
    App.render app3 = App.Application.
Proof.
  intros H. apply doesAccountExist_false in H.
  set (u := {| name := name; salt := uuid; hash := hashPassword pass uuid |}).
  set (ls1 := <[SESSION_KEY := lit "true"]> (<[USER_KEY := stringify_user u]> ls0)).
  assert (Hsign : signUp uuid name pass ls0 = (Returns true, ls1)).
  { rewrite signUp_eq, H. reflexivity. }
  assert (Huser2 : delete SESSION_KEY ls1 !! USER_KEY = Some (stringify_user u)).
  { rewrite lookup_delete_ne by (apply not_eq_sym, keys_distinct).
    apply (signUp_success _ _ _ _ _ Hsign). }
  exists (App.setIsLoadingAuth false (App.setHasAccount false App.initial)).
  eexists _, _, _, ls1, (delete SESSION_KEY ls1).
  split.
  { unfold App.checkUserStatus, bind. rewrite doesAccountExist_eq, H. reflexivity. }
  split; [reflexivity|]. split.
  { unfold App.handleSignUp, bind. rewrite Hsign. reflexivity. }
  split; [reflexivity|]. split; [reflexivity|]. split; [reflexivity|]. split.
  { rewrite checkAuth_eq, lookup_delete_eq. reflexivity. }
  split.
  { unfold App.handleLogin, bind. rewrite login_eq, Huser2, login_result_stored.
    subst u. cbn [salt hash]. rewrite str_eqb_refl.
    rewrite insert_delete_eq. subst ls1. rewrite insert_insert_eq. reflexivity. }
  reflexivity.
Qed.

End AppFlow.

(** The flow from the empty storage. *)
Lemma app_flow_witness :
  exists (app0 app1 app2 app3 : App.AppState) (ls1 ls2 : Storage),
    App.checkUserStatus App.initial ∅ = (Returns app0, ∅) /\
    App.render app0 = App.SignUpScreen /\
    App.handleSignUp sample_uuid sample_name sample_password app0 ∅ =
      (Returns (true, app1), ls1) /\
    App.render app1 = App.Application /\
    App.handleLogout app1 ls1 = (Returns app2, ls2) /\
    App.render app2 = App.LoginScreen /\
    checkAuth ls2 = (Returns false, ls2) /\
    App.handleLogin (fun lexeme => lexeme) sample_password app2 ls2 =
      (Returns (true, app3), ls1) /\
    App.render app3 = App.Application.
Proof.
  apply (app_flow (fun lexeme => lexeme) sample_uuid sample_name sample_password ∅).
  reflexivity.
Defined.

(* ===================================================================== *)
(** * The member modal *)
(* ===================================================================== *)

(** ** [trim] *)

Lemma trimStart_suffix (s : jsstring) :
  exists p, s = p ++ Trim.trimStart s /\ Forall (fun c => Trim.is_white_space c = true) p.
Proof.
  induction s as [|c r (p & Hp & Hws)]; [exists []; split; [reflexivity | constructor]|].
  cbn [Trim.trimStart]. destruct (Trim.is_white_space c) eqn:E.
  - exists (c :: p). split; [cbn [app]; f_equal; exact Hp | constructor; assumption].
  - exists []. split; [reflexivity | constructor].
Qed.

Lemma trimStart_head (s : jsstring) (c : N) (r : jsstring) :
  Trim.trimStart s = c :: r -> Trim.is_white_space c = false.
Proof.
  induction s as [|d s IH]; cbn [Trim.trimStart]; [discriminate|].
  destruct (Trim.is_white_space d) eqn:E; [exact IH|].
  intros H. injection H as <- _. exact E.
Qed.

Lemma trimStart_fixed (c : N) (r : jsstring) :
  Trim.is_white_space c = false -> Trim.trimStart (c :: r) = c :: r.
Proof. intros H. cbn [Trim.trimStart]. rewrite H. reflexivity. Qed.

Lemma trimEnd_prefix (s : jsstring) :
  exists q, s = Trim.trimEnd s ++ q /\ Forall (fun c => Trim.is_white_space c = true) q.
Proof.
  unfold Trim.trimEnd. destruct (trimStart_suffix (rev s)) as (p & Hp & Hws).
  exists (rev p). split.
  - rewrite <- rev_app_distr, <- Hp, rev_involutive. reflexivity.
  - apply List.Forall_rev, Hws.
Qed.

Lemma trimEnd_last (s : jsstring) (c : N) (r : jsstring) :
  Trim.trimEnd s = r ++ [c] -> Trim.is_white_space c = false.
Proof.
  unfold Trim.trimEnd. intros H. apply (f_equal (@rev N)) in H.
  rewrite rev_involutive, rev_app_distr in H. cbn [rev app] in H.
  apply (trimStart_head _ _ _ H).
Qed.

Lemma trimEnd_fixed (r : jsstring) (c : N) :
  Trim.is_white_space c = false -> Trim.trimEnd (r ++ [c]) = r ++ [c].
Proof.
  intros H. unfold Trim.trimEnd. rewrite rev_app_distr. cbn [rev app].
  rewrite trimStart_fixed by exact H.
  change (c :: rev r) with ([c] ++ rev r).
  rewrite rev_app_distr, rev_involutive. reflexivity.
Qed.

(** What [trim] returns is empty or starts and ends with characters that
    are not white space. *)
Lemma trim_trimmed (s : jsstring) :
  Trim.trim s <> [] -> EditMemberModal.trimmed (Trim.trim s).
Proof.
  intros Hne. split; [exact Hne|]. split.
  - intros c r H. unfold Trim.trim in H.
    destruct (trimEnd_prefix (Trim.trimStart s)) as (q & Hq & _).
    rewrite H in Hq. cbn [app] in Hq. apply (trimStart_head _ _ _ Hq).
  - intros c r H. apply (trimEnd_last _ _ _ H).
Qed.

Lemma trim_fixed (s : jsstring) : EditMemberModal.trimmed s -> Trim.trim s = s.
Proof.
  intros (Hne & Hhead & Hlast). unfold Trim.trim.
  destruct s as [|c r]; [contradiction|].
  rewrite trimStart_fixed by (apply (Hhead c r); reflexivity).
  destruct (exists_last (l := c :: r)) as (r' & c' & E); [discriminate|].
  rewrite E. apply trimEnd_fixed. apply (Hlast c' r'). exact E.
Qed.

Lemma trim_idempotent (s : jsstring) : Trim.trim (Trim.trim s) = Trim.trim s.
Proof.
  destruct (Trim.trim s) as [|c r] eqn:E; [reflexivity|].
  rewrite <- E. apply trim_fixed, trim_trimmed. rewrite E. discriminate.
Qed.

Lemma is_empty_false (s : jsstring) : Trim.is_empty s = false <-> s <> [].
Proof. destruct s; cbn; split; intros H; congruence. Qed.

(** ** Member lists *)

Lemma existsb_none {A : Type} (f : A -> bool) (l : list A) :
  existsb f l = false -> forall x, In x l -> f x = false.
Proof.
  intros H x Hx. destruct (f x) eqn:E; [|reflexivity].
  rewrite <- H. symmetry. apply existsb_exists. exists x. split; assumption.
Qed.

Section MemberModal.

Variable Other : Type.
Variable no_other : Other.

Abbreviation Member := (EditMemberModal.Member Other).
Abbreviation Household := (EditMemberModal.Household Other).
Abbreviation edited := (@EditMemberModal.edited Other).

Lemma edited_id (mb : Member) (name avatarUrl : jsstring) (m : Member) :
  EditMemberModal.id (edited mb name avatarUrl m) = EditMemberModal.id m.
Proof. unfold EditMemberModal.edited. destruct (str_eqb _ _); reflexivity. Qed.

Lemma has_member_edited (mb : Member) (name avatarUrl : jsstring)
  (ms : list Member) (i : jsstring) :
  EditMemberModal.has_member (List.map (edited mb name avatarUrl) ms) i =
  EditMemberModal.has_member ms i.
Proof.
  unfold EditMemberModal.has_member.
  induction ms as [|m ms IH]; [reflexivity|].
  cbn [List.map existsb]. rewrite edited_id, IH. reflexivity.
Qed.

Lemma has_member_app (ms1 ms2 : list Member) (i : jsstring) :
  EditMemberModal.has_member (ms1 ++ ms2) i =
  EditMemberModal.has_member ms1 i || EditMemberModal.has_member ms2 i.
Proof. apply existsb_app. Qed.

Lemma has_member_removed (mb : Member) (ms : list Member) (i : jsstring) :
  i <> EditMemberModal.id mb ->
  EditMemberModal.has_member
    (List.filter (fun m => negb (str_eqb (EditMemberModal.id m) (EditMemberModal.id mb))) ms) i =
  EditMemberModal.has_member ms i.
Proof.
  intros Hi. unfold EditMemberModal.has_member.
  induction ms as [|m ms IH]; [reflexivity|].
  cbn [List.filter existsb].
  destruct (str_eqb (EditMemberModal.id m) (EditMemberModal.id mb)) eqn:E;
    cbn [negb existsb]; rewrite IH; [|reflexivity].
  apply str_eqb_eq in E.
  replace (str_eqb (EditMemberModal.id m) i) with false; [reflexivity|].
  symmetry. apply str_eqb_neq. congruence.
Qed.


(** The two shapes of what [handleSubmit] does. *)
Lemma handleSubmit_blank (member : option Member) (h : Household)
  (name avatarUrl uuid : jsstring) :
  Trim.trim name = [] \/ Trim.trim avatarUrl = [] ->
  EditMemberModal.handleSubmit no_other member h name avatarUrl uuid =
  [EditMemberModal.Alert (lit "Please provide a name and avatar URL.")].
Proof.
  intros H. unfold EditMemberModal.handleSubmit.
  destruct H as [-> | ->]; [reflexivity|].
  rewrite orb_true_r. reflexivity.
Qed.

Lemma handleSubmit_filled (member : option Member) (h : Household)
  (name avatarUrl uuid : jsstring) :
  Trim.trim name <> [] -> Trim.trim avatarUrl <> [] ->
  EditMemberModal.handleSubmit no_other member h name avatarUrl uuid =
  [EditMemberModal.Update
     match member with
     | Some mb => List.map (edited mb name avatarUrl) (EditMemberModal.members h)
     | None =>
         EditMemberModal.members h ++
         [{| EditMemberModal.id := lit "mem-" ++ uuid;
             EditMemberModal.name := Trim.trim name;
             EditMemberModal.avatarUrl := Trim.trim avatarUrl;
             EditMemberModal.other := no_other |}]
     end;
   EditMemberModal.Close].
Proof.
  intros Hn Ha. unfold EditMemberModal.handleSubmit.
  apply is_empty_false in Hn, Ha. rewrite Hn, Ha. cbn [orb].
  destruct member; reflexivity.
Qed.


(** X9. Editing a member: the list passed to [onUpdate] has the same ids
    and the same other properties in the same order; a member whose id is
    the edited one gets the trimmed name and URL, every other member is
    passed on as it was. *)
Theorem member_edit_spec (mb : Member) (h : Household)
  (name avatarUrl uuid : jsstring) :
  Trim.trim name <> [] -> Trim.trim avatarUrl <> [] ->
  exists ms : list Member,
    EditMemberModal.handleSubmit no_other (Some mb) h name avatarUrl uuid =
      [EditMemberModal.Update ms; EditMemberModal.Close] /\
    List.map EditMemberModal.id ms =
      List.map EditMemberModal.id (EditMemberModal.members h) /\
    List.map EditMemberModal.other ms =
      List.map EditMemberModal.other (EditMemberModal.members h) /\
    Forall2
      (fun m m' =>
         (EditMemberModal.id m = EditMemberModal.id mb ->
          EditMemberModal.name m' = Trim.trim name /\
          EditMemberModal.avatarUrl m' = Trim.trim avatarUrl) /\
         (EditMemberModal.id m <> EditMemberModal.id mb -> m' = m))
      (EditMemberModal.members h) ms.
Proof.
  intros Hn Ha. eexists. split; [apply handleSubmit_filled; assumption|].
  cbn beta iota.
  induction (EditMemberModal.members h) as [|m ms IH].
  { repeat split; constructor. }
  destruct IH as (IHid & IHother & IHall).
  cbn [List.map]. rewrite IHid, IHother.
  split; [f_equal; apply edited_id|].
  split; [f_equal; unfold EditMemberModal.edited; destruct (str_eqb _ _); reflexivity|].
  constructor; [|exact IHall].
  unfold EditMemberModal.edited.
  destruct (str_eqb (EditMemberModal.id m) (EditMemberModal.id mb)) eqn:E.
  - apply str_eqb_eq in E. split; [intros _; split; reflexivity | congruence].
  - apply str_eqb_neq in E. split; [congruence | reflexivity].
Qed.


Lemma same_id_same_member (l : list Member) (a b : Member) :
  List.NoDup (List.map EditMemberModal.id l) -> In a l -> In b l ->
  EditMemberModal.id a = EditMemberModal.id b -> a = b.
Proof.
  induction l as [|m l IH]; intros Hnd Ha Hb Hid; [destruct Ha|].
  cbn [List.map] in Hnd. apply List.NoDup_cons_iff in Hnd as [Hm Hnd].
  destruct Ha as [-> | Ha], Hb as [-> | Hb]; try reflexivity.
  - exfalso. apply Hm. rewrite Hid. apply in_map, Hb.
  - exfalso. apply Hm. rewrite <- Hid. apply in_map, Ha.
  - apply IH; assumption.
Qed.

(** X11. Every expense names members of the household, as payer and in
    its splits: if that holds of the household the modal is given, it
    holds of every member list the modal passes to [onUpdate], whether by
    adding, editing or deleting. *)
Theorem member_refs_preserved (member : option Member) (h : Household)
  (name avatarUrl uuid : jsstring) (confirmed : bool) (ms : list Member) :
  EditMemberModal.refs_ok (EditMemberModal.members h) (EditMemberModal.expenses h) ->
  In ms (EditMemberModal.updates
           (EditMemberModal.handleSubmit no_other member h name avatarUrl uuid) ++
         EditMemberModal.updates
           (EditMemberModal.handleDelete member h confirmed)) ->
  EditMemberModal.refs_ok ms (EditMemberModal.expenses h).
Proof.
  intros Hok Hms. apply in_app_iff in Hms as [Hms | Hms].
  - (* added or edited *)
    destruct (Trim.trim name) as [|c1 r1] eqn:En.
    { rewrite handleSubmit_blank in Hms by (left; exact En). destruct Hms. }
    destruct (Trim.trim avatarUrl) as [|c2 r2] eqn:Ea.
    { rewrite handleSubmit_blank in Hms by (right; exact Ea). destruct Hms. }
    rewrite handleSubmit_filled in Hms by (rewrite ?En, ?Ea; discriminate).
    destruct Hms as [<- | []].
    intros exp Hexp. destruct (Hok exp Hexp) as [Hpayer Hsplits].
    destruct member as [mb|].
    + rewrite has_member_edited. split; [exact Hpayer|].
      intros split Hsplit. rewrite has_member_edited. apply Hsplits, Hsplit.
    + rewrite has_member_app, Hpayer. split; [reflexivity|].
      intros split Hsplit. rewrite has_member_app, (Hsplits split Hsplit).
      reflexivity.
  - (* deleted *)
    destruct member as [mb|]; [|destruct Hms].
    unfold EditMemberModal.handleDelete in Hms.
    destruct (existsb _ (EditMemberModal.expenses h)) eqn:Hrefs; [destruct Hms|].
    destruct confirmed; [|destruct Hms].
    destruct Hms as [<- | []].
    intros exp Hexp. destruct (Hok exp Hexp) as [Hpayer Hsplits].
    pose proof (existsb_none _ _ Hrefs exp Hexp) as Hnone. cbn beta in Hnone.
    apply orb_false_iff in Hnone as [Hp Hs].
    split.
    + rewrite has_member_removed by (apply str_eqb_neq, Hp). exact Hpayer.
    + intros split Hsplit.
      rewrite has_member_removed
        by (apply str_eqb_neq, (existsb_none _ _ Hs split Hsplit)).
      apply Hsplits, Hsplit.
Qed.

(** X12. Opening the modal on a member of the household and saving
    without a change passes the member list on as it is, provided the ids
    of the members are all different and the name and URL of the member
    are stored trimmed. *)
Theorem member_edit_unchanged (mb : Member) (h : Household) (stamp uuid : jsstring) :
  In mb (EditMemberModal.members h) ->
  List.NoDup (List.map EditMemberModal.id (EditMemberModal.members h)) ->
  EditMemberModal.trimmed (EditMemberModal.name mb) ->
  EditMemberModal.trimmed (EditMemberModal.avatarUrl mb) ->
  EditMemberModal.handleSubmit no_other (Some mb) h
    (fst (EditMemberModal.fill_form (Some mb) stamp))
    (snd (EditMemberModal.fill_form (Some mb) stamp)) uuid =
  [EditMemberModal.Update (EditMemberModal.members h); EditMemberModal.Close].
Proof.
  intros Hin Hnd Hn Ha. cbn [EditMemberModal.fill_form fst snd].
  rewrite handleSubmit_filled
    by (rewrite trim_fixed by assumption; (apply Hn || apply Ha)).
  f_equal. f_equal.
  rewrite <- (List.map_id (EditMemberModal.members h)) at 2.
  apply List.map_ext_in. intros m Hm. unfold EditMemberModal.edited.
  destruct (str_eqb (EditMemberModal.id m) (EditMemberModal.id mb)) eqn:E;
    [|reflexivity].
  apply str_eqb_eq in E.
  assert (m = mb) as -> by (apply (same_id_same_member _ _ _ Hnd Hm Hin E)).
  rewrite !trim_fixed by assumption. destruct mb; reflexivity.
Qed.

End MemberModal.

(** X9 on the sample household: Rohan renamed, Asha untouched. *)
Lemma member_edit_spec_witness :
  exists ms : list (EditMemberModal.Member unit),
    EditMemberModal.handleSubmit tt (Some MemberSamples.rohan) MemberSamples.home
      (lit "  Rohan K ") (lit "https://i.pravatar.cc/150?u=2") [] =
      [EditMemberModal.Update ms; EditMemberModal.Close] /\
    List.map EditMemberModal.id ms = [lit "mem-1"; lit "mem-2"] /\
    List.map EditMemberModal.name ms = [lit "Asha"; lit "Rohan K"].
Proof.
  destruct (member_edit_spec unit tt MemberSamples.rohan MemberSamples.home
              (lit "  Rohan K ") (lit "https://i.pravatar.cc/150?u=2") [])
    as (ms & Hrun & Hid & _ & Hall); [vm_compute; discriminate ..|].
  exists ms. split; [exact Hrun|]. split; [exact Hid|].
  rewrite handleSubmit_filled in Hrun by (vm_compute; discriminate).
  injection Hrun as <-. reflexivity.
Defined.


(** X11 on the sample household: adding a member keeps every expense
    pointing at a member. *)
Lemma member_refs_preserved_witness :
  EditMemberModal.refs_ok
    (EditMemberModal.members MemberSamples.home ++
     [{| EditMemberModal.id := lit "mem-" ++ sample_uuid;
         EditMemberModal.name := lit "Meera";
         EditMemberModal.avatarUrl := lit "https://i.pravatar.cc/150?u=3";
         EditMemberModal.other := tt |}])
    (EditMemberModal.expenses MemberSamples.home).
Proof.
  apply (member_refs_preserved unit tt None MemberSamples.home
           (lit " Meera") (lit "https://i.pravatar.cc/150?u=3 ") sample_uuid false).
  - intros exp [<- | []]. split; [reflexivity|].
    intros split [<- | []]. reflexivity.
  - vm_compute. left. reflexivity.
Defined.

(** X12 on the sample household. *)
Lemma member_edit_unchanged_witness :
  EditMemberModal.handleSubmit tt (Some MemberSamples.asha) MemberSamples.home
    (lit "Asha") (lit "https://i.pravatar.cc/150?u=1") [] =
  [EditMemberModal.Update [MemberSamples.asha; MemberSamples.rohan];
   EditMemberModal.Close].
Proof.
  apply (member_edit_unchanged unit tt MemberSamples.asha MemberSamples.home [] []).
  - left. reflexivity.
  - repeat constructor; vm_compute; intuition discriminate.
  - repeat split; try discriminate; intros c r H.
    + injection H as <- _. reflexivity.
    + apply (f_equal (@rev N)) in H. rewrite rev_app_distr in H.
      vm_compute in H. injection H as <- _. reflexivity.
  - repeat split; try discriminate; intros c r H.
    + injection H as <- _. reflexivity.
    + apply (f_equal (@rev N)) in H. rewrite rev_app_distr in H.
      vm_compute in H. injection H as <- _. reflexivity.
Defined.

(* ===================================================================== *)
(** * More on the service *)
(* ===================================================================== *)

Section ServiceEdges.

Variable number_to_string : jsstring -> jsstring.

(** X13. [login], whatever is stored and however it ends: it leaves every
    item other than the session item as it was; when it returns [true] the
    session item is ["true"] afterwards; when it returns [false] or throws,
    the storage is exactly as before, so a failed attempt never ends a
    session that was open. *)
Theorem login_frame (pass : jsstring) (ls : Storage) :
  (forall key : jsstring,
      key <> SESSION_KEY ->
      snd (login number_to_string pass ls) !! key = ls !! key) /\
  (fst (login number_to_string pass ls) = Returns true ->
   snd (login number_to_string pass ls) = <[SESSION_KEY := lit "true"]> ls) /\
  (fst (login number_to_string pass ls) <> Returns true ->
   snd (login number_to_string pass ls) = ls /\
   checkAuth (snd (login number_to_string pass ls)) = checkAuth ls).
Proof.
  rewrite login_eq. cbn [fst snd].
  destruct (login_result number_to_string pass (ls !! USER_KEY)) as [[|]|e].
  - split; [|split; [reflexivity | congruence]].
    intros key Hkey. apply lookup_insert_ne. congruence.
  - split; [reflexivity|]. split; [discriminate | split; reflexivity].
  - split; [reflexivity|]. split; [discriminate | split; reflexivity].
Qed.

(** X14. A stored user text that is not empty and not valid JSON locks the
    installation: [doesAccountExist] returns [true], so [signUp] refuses
    and changes nothing, while [login] throws a [SyntaxError] for every
    password and [getAuthenticatedUser] throws it too; nothing is
    changed by any of them. *)
Theorem invalid_record_locks_out (text : jsstring) (ls : Storage) :
  ls !! USER_KEY = Some text -> text <> [] -> parse text = None ->
  doesAccountExist ls = (Returns true, ls) /\
  (forall uuid name pass : jsstring,
      signUp uuid name pass ls = (Returns false, ls)) /\
  (forall pass : jsstring,
      login number_to_string pass ls = (Throws SyntaxError, ls)) /\
  getAuthenticatedUser ls = (Throws SyntaxError, ls).
Proof.
  intros Hls Hne Hparse.
  assert (Htruthy : truthy (ls !! USER_KEY) = true).
  { rewrite Hls. destruct text; [contradiction | reflexivity]. }
  split; [apply doesAccountExist_true, Htruthy|].
  split; [intros; rewrite signUp_eq, Htruthy; reflexivity|].
  split.
  - intros pass. rewrite login_eq, Hls. unfold login_result.
    destruct text; [contradiction|]. rewrite Hparse. reflexivity.
  - rewrite getAuthenticatedUser_eq, Hls. unfold user_of_text.
    destruct text; [contradiction|]. rewrite Hparse. reflexivity.
Qed.


(** X16. [login] and the bytes of the password: with a salt of ASCII
    characters (as a UUID is), any password with the same UTF-8 bytes as
    the one given at sign-up logs in.  [TextEncoder] writes every lone
    surrogate as U+FFFD, so two different passwords can have the same
    bytes. *)
Theorem login_same_bytes (uuid name pass other : jsstring) (ls0 ls : Storage) :
  signUp uuid name pass ls0 = (Returns true, ls) ->
  Forall (fun c => c < 128) uuid ->
  encode other = encode pass ->
  login number_to_string other ls = (Returns true, ls).
Proof.
  intros Hsign Hascii Hbytes.
  destruct (signUp_success _ _ _ _ _ Hsign) as (_ & _ & Huser & Hsession).
  rewrite login_eq, Huser, login_result_stored. cbn [salt hash].
  replace (hashPassword other uuid) with (hashPassword pass uuid).
  - rewrite str_eqb_refl. f_equal. apply insert_id, Hsession.
  - unfold hashPassword. rewrite !encode_app_ascii, Hbytes by exact Hascii.
    reflexivity.
Qed.

(** X17. Doing it twice: a second [login] with the same password ends as
    the first did and leaves the storage the first left; a second [logout]
    changes nothing more; and [logout] on a storage with no session item
    changes nothing at all. *)
Theorem session_calls_idempotent (pass : jsstring) (ls : Storage) :
  login number_to_string pass (snd (login number_to_string pass ls)) =
    login number_to_string pass ls /\
  logout (snd (logout ls)) = logout ls /\
  (ls !! SESSION_KEY = None -> logout ls = (Returns tt, ls)).
Proof.
  split; [|split].
  - rewrite !login_eq. cbn [fst snd].
    destruct (login_result number_to_string pass (ls !! USER_KEY)) as [[|]|e] eqn:E;
      rewrite ?E; try reflexivity.
    rewrite lookup_insert_ne by (apply not_eq_sym, keys_distinct).
    rewrite E, insert_insert_eq. reflexivity.
  - rewrite !logout_eq. cbn [snd]. rewrite delete_delete_eq. reflexivity.
  - intros H. rewrite logout_eq, delete_id by exact H. reflexivity.
Qed.

End ServiceEdges.

(** X14 on a storage whose user item is not JSON. *)
Lemma invalid_record_locks_out_witness :
  doesAccountExist {[ USER_KEY := lit "Priya" ]} =
    (Returns true, {[ USER_KEY := lit "Priya" ]}) /\
  (forall uuid name pass : jsstring,
      signUp uuid name pass {[ USER_KEY := lit "Priya" ]} =
      (Returns false, {[ USER_KEY := lit "Priya" ]})) /\
  (forall pass : jsstring,
      login (fun lexeme => lexeme) pass {[ USER_KEY := lit "Priya" ]} =
      (Throws SyntaxError, {[ USER_KEY := lit "Priya" ]})) /\
  getAuthenticatedUser {[ USER_KEY := lit "Priya" ]} =
    (Throws SyntaxError, {[ USER_KEY := lit "Priya" ]}).
Proof.
  apply (invalid_record_locks_out (fun lexeme => lexeme) (lit "Priya")
           {[ USER_KEY := lit "Priya" ]}).
  - reflexivity.
  - discriminate.
  - reflexivity.
Defined.


(** X16: signed up with a lone surrogate as password, logged in with
    U+FFFD. *)
Lemma login_same_bytes_witness :
  [0xD83D] <> [0xFFFD] /\
  login (fun lexeme => lexeme) [0xFFFD]
        (snd (signUp sample_uuid sample_name [0xD83D] ∅)) =
  (Returns true, snd (signUp sample_uuid sample_name [0xD83D] ∅)).
Proof.
  split; [discriminate|].
  apply (login_same_bytes (fun lexeme => lexeme) sample_uuid sample_name
           [0xD83D] [0xFFFD] ∅).
  - reflexivity.
  - vm_compute. repeat constructor.
  - reflexivity.
Defined.

(* ===================================================================== *)
(** * The forms and the states of [App] *)
(* ===================================================================== *)

Lemma checkAuth_decide (ls : Storage) :
  match ls !! SESSION_KEY with
  | Some s => str_eqb s (lit "true")
  | None => false
  end = bool_decide (ls !! SESSION_KEY = Some (lit "true")).
Proof.
  destruct (ls !! SESSION_KEY) as [s|].
  - destruct (str_eqb s (lit "true")) eqn:E.
    + apply str_eqb_eq in E. subst s. symmetry. apply bool_decide_eq_true_2.
      reflexivity.
    + apply str_eqb_neq in E. symmetry. apply bool_decide_eq_false_2. congruence.
  - symmetry. apply bool_decide_eq_false_2. discriminate.
Qed.

(** What the callback of the sign-up form does to the world. *)
Lemma onSignUp_eq (uuid name pass : jsstring) (app : App.AppState) (ls : Storage) :
  Shell.onSignUp uuid name pass (app, ls) =
  if truthy (ls !! USER_KEY) then (Returns false, (app, ls))
  else (Returns true,
        (App.setHasAccount true (App.setIsAuthenticated true app),
         snd (signUp uuid name pass ls))).
Proof.
  unfold Shell.onSignUp, App.handleSignUp, bind. cbn [fst snd].
  rewrite signUp_eq. destruct (truthy (ls !! USER_KEY)); reflexivity.
Qed.

Section Forms.

Variable number_to_string : jsstring -> jsstring.

(** What the callback of the login form does to the world. *)
Lemma onLogin_eq (pass : jsstring) (app : App.AppState) (ls : Storage) :
  Shell.onLogin number_to_string pass (app, ls) =
  match login number_to_string pass ls with
  | (Returns true, ls') => (Returns true, (App.setIsAuthenticated true app, ls'))
  | (Returns false, ls') => (Returns false, (app, ls'))
  | (Throws e, ls') => (Throws e, (app, ls'))
  end.
Proof.
  unfold Shell.onLogin, App.handleLogin, bind. cbn [fst snd].
  destruct (login number_to_string pass ls) as [[[|]|e] ls']; reflexivity.
Qed.

(** X18. Submitting the sign-up form, the call into the expense database
    apart (it is not part of [handleSignUp] here): it never throws, and it
    either creates the account or shows an error and changes nothing.  The
    account is
    created exactly when the two passwords are equal, the password has at
    least six code units and no account exists; then the storage is the one
    [signUp] leaves, the error is cleared, the form is no longer loading
    and [App] is authenticated.  Otherwise the storage and the state of
    [App] are as before and the error says why: a mismatch first, then a
    short password, then an account that exists. *)
Theorem signUp_form_spec (uuid : jsstring) (st : SignUpForm.State)
  (app : App.AppState) (ls : Storage) :
  let accepted :=
    str_eqb (SignUpForm.password st) (SignUpForm.confirmPassword st) &&
    negb (length (SignUpForm.password st) <? 6)%nat &&
    negb (truthy (ls !! USER_KEY)) in
  exists (st' : SignUpForm.State) (app' : App.AppState) (ls' : Storage),
    SignUpForm.handleSubmit (Shell.onSignUp uuid) st (app, ls) =
      (st', Returns tt, (app', ls')) /\
    (accepted = true ->
     signUp uuid (SignUpForm.name st) (SignUpForm.password st) ls =
       (Returns true, ls') /\
     SignUpForm.error st' = [] /\ SignUpForm.isLoading st' = false /\
     App.isAuthenticated app' = true /\ App.hasAccount app' = true) /\
    (accepted = false ->
     ls' = ls /\ app' = app /\
     SignUpForm.error st' =
       if negb (str_eqb (SignUpForm.password st) (SignUpForm.confirmPassword st))
       then lit "Passwords do not match."
       else if (length (SignUpForm.password st) <? 6)%nat
       then lit "Password must be at least 6 characters long."
       else lit "An account might already exist. Try refreshing the page.").
Proof.
  intros accepted. subst accepted. unfold SignUpForm.handleSubmit.
  destruct (str_eqb (SignUpForm.password st) (SignUpForm.confirmPassword st)).
  2:{ eexists _, _, _. split; [reflexivity|]. split; [discriminate|].
      intros _. repeat split. }
  destruct (length (SignUpForm.password st) <? 6)%nat.
  { eexists _, _, _. split; [reflexivity|]. split; [discriminate|].
    intros _. repeat split. }
  cbn [negb andb SignUpForm.name SignUpForm.password SignUpForm.setError
       SignUpForm.setIsLoading].
  rewrite onSignUp_eq. destruct (truthy (ls !! USER_KEY)) eqn:E.
  - eexists _, _, _. split; [reflexivity|]. split; [discriminate|].
    intros _. repeat split.
  - eexists _, _, _. split; [reflexivity|]. split; [|discriminate].
    intros _. rewrite signUp_eq, E. repeat split.
Qed.

(** X19. Submitting the login form when [login] does not throw: with no
    account, and with a stored record whose hash the password does not
    match, the form shows the same message, stops loading, and neither the
    storage nor the state of [App] changes; with a stored record whose hash
    the password matches, the error is cleared, the session item is set and
    [App] is authenticated. *)
Theorem login_form_spec (st : LoginForm.State) (app : App.AppState) (ls : Storage) :
  let refused :=
    ({| LoginForm.password := LoginForm.password st;
        LoginForm.error := lit "Invalid password. Please try again.";
        LoginForm.isLoading := false |},
     Returns tt, (app, ls)) in
  (doesAccountExist ls = (Returns false, ls) ->
   LoginForm.handleSubmit (Shell.onLogin number_to_string) st (app, ls) = refused) /\
  (forall u : UserData,
      ls !! USER_KEY = Some (stringify_user u) ->
      (hashPassword (LoginForm.password st) (salt u) <> hash u ->
       LoginForm.handleSubmit (Shell.onLogin number_to_string) st (app, ls) =
       refused) /\
      (hashPassword (LoginForm.password st) (salt u) = hash u ->
       LoginForm.handleSubmit (Shell.onLogin number_to_string) st (app, ls) =
       ({| LoginForm.password := LoginForm.password st;
           LoginForm.error := [];
           LoginForm.isLoading := false |},
        Returns tt,
        (App.setIsAuthenticated true app, <[SESSION_KEY := lit "true"]> ls)))).
Proof.
  intros refused. subst refused. unfold LoginForm.handleSubmit.
  cbn [LoginForm.password LoginForm.setError LoginForm.setIsLoading].
  rewrite onLogin_eq, login_eq. split.
  - intros H. apply doesAccountExist_false, truthy_false in H.
    destruct H as [-> | ->]; reflexivity.
  - intros u Hu. rewrite Hu, login_result_stored. split; intros H.
    + apply str_eqb_neq in H. rewrite H. reflexivity.
    + apply str_eqb_eq in H. rewrite H. reflexivity.
Qed.

(** X20. Submitting the login form when [login] throws (the stored user
    text is not a usable record): the form is left loading, with the error
    cleared, so its submit button stays disabled and no message is shown;
    the storage and the state of [App] are as before. *)
Theorem login_form_stuck (st : LoginForm.State) (app : App.AppState)
  (ls : Storage) (e : exn) :
  fst (login number_to_string (LoginForm.password st) ls) = Throws e ->
  exists st' : LoginForm.State,
    LoginForm.handleSubmit (Shell.onLogin number_to_string) st (app, ls) =
      (st', Throws e, (app, ls)) /\
    LoginForm.isLoading st' = true /\
    LoginForm.can_submit st' = false /\
    LoginForm.error st' = [].
Proof.
  intros H. unfold LoginForm.handleSubmit.
  cbn [LoginForm.password LoginForm.setError LoginForm.setIsLoading].
  rewrite onLogin_eq. rewrite login_eq in H |- *. cbn [fst] in H. rewrite H.
  eexists. split; [reflexivity|]. repeat split.
Qed.

(** One interaction keeps the state of [App] in step with the storage. *)
Lemma step_in_sync (w w' : Shell.World) :
  Shell.step number_to_string w w' -> Shell.in_sync w -> Shell.in_sync w'.
Proof.
  intros Hstep (Hload & Hacc & Hauth). destruct w as [app ls].
  cbn [fst snd] in Hload, Hacc, Hauth.
  assert (Hscreen : App.render app =
                    if negb (App.isAuthenticated app)
                    then (if App.hasAccount app then App.LoginScreen
                          else App.SignUpScreen)
                    else App.Application).
  { unfold App.render. rewrite Hload. reflexivity. }
  inversion Hstep as [uuid name pass w0 r w0' Hrender Hrun
                     | pass w0 r w0' Hrender Hrun
                     | w0 app' ls' Hrender Hrun]; subst; cbn [fst snd] in *.
  - (* sign-up *)
    rewrite Hscreen in Hrender.
    destruct (App.isAuthenticated app); [discriminate Hrender|].
    destruct (App.hasAccount app); [discriminate Hrender|].
    rewrite onSignUp_eq, <- Hacc in Hrun. injection Hrun as _ <-.
    rewrite signUp_eq, <- Hacc. cbn [snd].
    unfold Shell.in_sync. cbn [fst snd].
    rewrite lookup_insert_eq.
    rewrite lookup_insert_ne by (apply not_eq_sym, keys_distinct).
    rewrite lookup_insert_eq, truthy_stringify_user.
    rewrite bool_decide_eq_true_2 by reflexivity.
    repeat split. exact Hload.
  - (* login *)
    rewrite Hscreen in Hrender.
    destruct (App.isAuthenticated app) eqn:Eauth; [discriminate Hrender|].
    destruct (App.hasAccount app) eqn:Eacc; [|discriminate Hrender].
    rewrite onLogin_eq, login_eq in Hrun.
    destruct (login_result number_to_string pass (ls !! USER_KEY)) as [[|]|e];
      injection Hrun as _ <-; unfold Shell.in_sync; cbn [fst snd].
    + rewrite lookup_insert_eq.
      rewrite lookup_insert_ne by (apply not_eq_sym, keys_distinct).
      rewrite <- Hacc, bool_decide_eq_true_2 by reflexivity.
      repeat split; assumption.
    + rewrite Eauth, Eacc. repeat split; assumption.
    + rewrite Eauth, Eacc. repeat split; assumption.
  - (* logout *)
    unfold App.handleLogout, bind in Hrun. rewrite logout_eq in Hrun.
    injection Hrun as <- <-. unfold Shell.in_sync. cbn [fst snd].
    rewrite lookup_delete_eq.
    rewrite lookup_delete_ne by (apply not_eq_sym, keys_distinct).
    rewrite bool_decide_eq_false_2 by discriminate.
    rewrite andb_false_r. repeat split; assumption.
Qed.

(** X21. Whatever the storage was at start-up and whatever is done through
    the screens, one interaction at a time and the call into the expense
    database apart, the state of [App] mirrors the storage: [hasAccount] is
    what [doesAccountExist] returns, and [isAuthenticated] holds exactly
    when an account exists and the session item is ["true"].  So the
    application is only ever shown over a storage with an account and an
    open session. *)
Theorem reachable_in_sync (ls0 : Storage) (w : Shell.World) :
  Shell.reachable number_to_string ls0 w ->
  Shell.in_sync w /\
  (App.render (fst w) = App.Application ->
   doesAccountExist (snd w) = (Returns true, snd w) /\
   checkAuth (snd w) = (Returns true, snd w)).
Proof.
  intros Hreach.
  assert (Hsync : Shell.in_sync w).
  { induction Hreach as [app ls Hstart | w w' _ IH Hstep].
    - unfold App.checkUserStatus, bind in Hstart.
      rewrite doesAccountExist_eq in Hstart.
      destruct (truthy (ls0 !! USER_KEY)) eqn:Eacc.
      + rewrite checkAuth_eq, checkAuth_decide in Hstart.
        destruct (bool_decide (ls0 !! SESSION_KEY = Some (lit "true"))) eqn:Eses;
          injection Hstart as <- <-; unfold Shell.in_sync; cbn [fst snd];
          rewrite Eacc, Eses; repeat split.
      + injection Hstart as <- <-. unfold Shell.in_sync. cbn [fst snd].
        rewrite Eacc. repeat split.
    - apply (step_in_sync _ _ Hstep IH). }
  split; [exact Hsync|].
  destruct Hsync as (Hload & Hacc & Hauth). intros Hrender.
  unfold App.render in Hrender. rewrite Hload in Hrender.
  destruct (App.isAuthenticated (fst w)); [|destruct (App.hasAccount (fst w));
                                             discriminate Hrender].
  symmetry in Hauth. apply andb_true_iff in Hauth as [Hu Hs].
  split; [apply doesAccountExist_true, Hu|].
  rewrite checkAuth_eq, checkAuth_decide, Hs. reflexivity.
Qed.

(** X22. The user record is written once: no interaction changes the item
    under the user key once it holds a non-empty text, and no sequence of
    interactions does. *)
Theorem record_written_once (w w' : Shell.World) :
  rtc (Shell.step number_to_string) w w' ->
  truthy (snd w !! USER_KEY) = true ->
  snd w' !! USER_KEY = snd w !! USER_KEY.
Proof.
  induction 1 as [w | w w1 w' Hstep _ IH]; [reflexivity|].
  intros Htruthy.
  assert (Hone : snd w1 !! USER_KEY = snd w !! USER_KEY).
  { destruct w as [app ls]. cbn [fst snd] in *.
    inversion Hstep as [uuid name pass w0 r w0' Hrender Hrun
                       | pass w0 r w0' Hrender Hrun
                       | w0 app' ls' Hrender Hrun]; subst; cbn [fst snd] in *.
    - rewrite onSignUp_eq, Htruthy in Hrun. injection Hrun as _ <-. reflexivity.
    - rewrite onLogin_eq, login_eq in Hrun.
      destruct (login_result number_to_string pass (ls !! USER_KEY)) as [[|]|e];
        injection Hrun as _ <-; cbn [snd]; try reflexivity.
      apply lookup_insert_ne, not_eq_sym, keys_distinct.
    - unfold App.handleLogout, bind in Hrun. rewrite logout_eq in Hrun.
      injection Hrun as _ <-.
      apply lookup_delete_ne, not_eq_sym, keys_distinct. }
  rewrite IH, Hone by (rewrite Hone; exact Htruthy). reflexivity.
Qed.

End Forms.

(** X20 on a stored text that is not JSON. *)
Lemma login_form_stuck_witness :
  exists st' : LoginForm.State,
    LoginForm.handleSubmit (Shell.onLogin (fun lexeme => lexeme))
      (LoginForm.setPassword sample_password LoginForm.initial)
      (App.setIsLoadingAuth false (App.setHasAccount true App.initial),
       {[ USER_KEY := lit "Priya" ]}) =
      (st', Throws SyntaxError,
       (App.setIsLoadingAuth false (App.setHasAccount true App.initial),
        {[ USER_KEY := lit "Priya" ]})) /\
    LoginForm.isLoading st' = true /\
    LoginForm.can_submit st' = false /\
    LoginForm.error st' = [].
Proof.
  refine (login_form_stuck (fun lexeme => lexeme)
            (LoginForm.setPassword sample_password LoginForm.initial)
            (App.setIsLoadingAuth false (App.setHasAccount true App.initial))
            {[ USER_KEY := lit "Priya" ]} SyntaxError _).
  reflexivity.
Defined.

(** X21 after a sign-up over the empty storage. *)
Lemma reachable_in_sync_witness :
  Shell.in_sync
    ({| App.isAuthenticated := true; App.hasAccount := true;
        App.isLoadingAuth := false |}, sample_store) /\
  (App.render
     {| App.isAuthenticated := true; App.hasAccount := true;
        App.isLoadingAuth := false |} = App.Application ->
   doesAccountExist sample_store = (Returns true, sample_store) /\
   checkAuth sample_store = (Returns true, sample_store)).
Proof.
  apply (reachable_in_sync (fun lexeme => lexeme) ∅
           ({| App.isAuthenticated := true; App.hasAccount := true;
               App.isLoadingAuth := false |}, sample_store)).
  apply (Shell.reach_step _ _
           ({| App.isAuthenticated := false; App.hasAccount := false;
               App.isLoadingAuth := false |}, ∅)).
  - apply Shell.reach_start. reflexivity.
  - apply (Shell.step_signUp _ sample_uuid sample_name sample_password
             ({| App.isAuthenticated := false; App.hasAccount := false;
                 App.isLoadingAuth := false |}, ∅) (Returns true)).
    + reflexivity.
    + vm_compute. reflexivity.
Defined.

(** X22 on a logout from the sample storage. *)
Lemma record_written_once_witness :
  delete SESSION_KEY sample_store !! USER_KEY = sample_store !! USER_KEY.
Proof.
  refine (record_written_once (fun lexeme => lexeme)
            ({| App.isAuthenticated := true; App.hasAccount := true;
                App.isLoadingAuth := false |}, sample_store)
            ({| App.isAuthenticated := false; App.hasAccount := true;
                App.isLoadingAuth := false |}, delete SESSION_KEY sample_store)
            _ _).
  - apply rtc_once.
    apply (Shell.step_logout _
             ({| App.isAuthenticated := true; App.hasAccount := true;
                 App.isLoadingAuth := false |}, sample_store)).
    + reflexivity.
    + reflexivity.
  - reflexivity.
Defined.

(* ===================================================================== *)
(** * The ids of the members *)
(* ===================================================================== *)

Lemma NoDup_snoc {A : Type} (l : list A) (x : A) :
  List.NoDup l -> ~ In x l -> List.NoDup (l ++ [x]).
Proof.
  induction 1 as [|a l Ha Hl IH]; intros Hx; cbn [app].
  - constructor; [intros [] | constructor].
  - constructor.
    + rewrite in_app_iff. intros [H | [<- | []]]; [exact (Ha H)|].
      apply Hx. left. reflexivity.
    + apply IH. intros H. apply Hx. right. exact H.
Qed.

Lemma NoDup_map_filter {A B : Type} (f : A -> B) (keep : A -> bool) (l : list A) :
  List.NoDup (List.map f l) -> List.NoDup (List.map f (List.filter keep l)).
Proof.
  induction l as [|a l IH]; cbn [List.map List.filter]; [intros H; exact H|].
  intros H. inversion H as [|b bs Ha Hl]; subst.
  destruct (keep a); [|exact (IH Hl)].
  cbn [List.map]. constructor; [|exact (IH Hl)].
  intros Hin. apply Ha.
  apply in_map_iff in Hin as (a' & Heq & Hin).
  apply List.filter_In in Hin as [Hin _].
  rewrite <- Heq. apply in_map, Hin.
Qed.

Section MemberIds.

Variable Other : Type.
Variable no_other : Other.

(** X23. The ids of the members stay different from one another: if no two
    members of the household the modal is given share an id, then no two
    members of any list the modal passes to [onUpdate] do, whether by
    editing or deleting or, when the id made from the UUID drawn is not
    that of a member already, by adding. *)
Theorem member_ids_distinct (member : option (EditMemberModal.Member Other))
  (h : EditMemberModal.Household Other) (name avatarUrl uuid : jsstring)
  (confirmed : bool) (ms : list (EditMemberModal.Member Other)) :
  List.NoDup (List.map EditMemberModal.id (EditMemberModal.members h)) ->
  (member = None ->
   ~ In (lit "mem-" ++ uuid)
        (List.map EditMemberModal.id (EditMemberModal.members h))) ->
  In ms (EditMemberModal.updates
           (EditMemberModal.handleSubmit no_other member h name avatarUrl uuid) ++
         EditMemberModal.updates
           (EditMemberModal.handleDelete member h confirmed)) ->
  List.NoDup (List.map EditMemberModal.id ms).
Proof.
  intros Hnd Hfresh Hms. apply in_app_iff in Hms as [Hms | Hms].
  - destruct (Trim.trim name) as [|c1 r1] eqn:En.
    { rewrite handleSubmit_blank in Hms by (left; exact En). destruct Hms. }
    destruct (Trim.trim avatarUrl) as [|c2 r2] eqn:Ea.
    { rewrite handleSubmit_blank in Hms by (right; exact Ea). destruct Hms. }
    rewrite handleSubmit_filled in Hms by (rewrite ?En, ?Ea; discriminate).
    destruct Hms as [<- | []]. destruct member as [mb|].
    + rewrite List.map_map.
      rewrite (List.map_ext _ EditMemberModal.id (edited_id Other mb name avatarUrl)).
      exact Hnd.
    + rewrite List.map_app. apply NoDup_snoc; [exact Hnd | exact (Hfresh eq_refl)].
  - destruct member as [mb|]; [|destruct Hms].
    unfold EditMemberModal.handleDelete in Hms.
    destruct (existsb _ (EditMemberModal.expenses h)); [destruct Hms|].
    destruct confirmed; [|destruct Hms].
    destruct Hms as [<- | []]. apply NoDup_map_filter, Hnd.
Qed.

End MemberIds.

(** X23 on the sample household: a third member with an id of her own. *)
Lemma member_ids_distinct_witness :
  List.NoDup
    (List.map EditMemberModal.id
       (EditMemberModal.members MemberSamples.home ++
        [{| EditMemberModal.id := lit "mem-" ++ sample_uuid;
            EditMemberModal.name := lit "Meera";
            EditMemberModal.avatarUrl := lit "https://i.pravatar.cc/150?u=3";
            EditMemberModal.other := tt |}])).
Proof.
  apply (member_ids_distinct unit tt None MemberSamples.home
           (lit " Meera") (lit "https://i.pravatar.cc/150?u=3 ") sample_uuid false).
  - repeat constructor; vm_compute; intuition discriminate.
  - intros _. vm_compute. intuition discriminate.
  - vm_compute. left. reflexivity.
Defined.
